(** * xmtpserver: the bus listener and the XMTP relay service

    A shallow embedding of [src/xmtp-listener.js] (the Redis listener and,
    after the separator, the XMTP service [xmtp-service.js]) together with the
    properties of its specification.

    Conventions of the embedding.
    - JavaScript strings are [string]s: the bytes of their UTF-8 form, as
      [readFileSync(.., "utf-8")] and the environment give them. White
      space is the set of ECMAScript, in UTF-8. Case mapping is that of the
      ASCII letters, which is all there is in a hexadecimal address.
    - A thrown value is a [js_exn]: an [Error] instance with its [name] and
      [message], or some other (non-nullish) value given by its string
      conversion.
    - [await] is plain sequencing: every asynchronous call of the source is
      awaited before the next statement runs.
    - The libraries the code calls (viem, uint8arrays, @xmtp/node-sdk, the
      JSON built-ins, the file system) are interfaces: type classes whose
      operations return either a thrown value or a result. *)

From Stdlib Require Import String Ascii List Bool Arith Lia.
From stdpp Require Import base option list strings gmap.
Import ListNotations.
Local Open Scope string_scope.
Local Open Scope list_scope.

(** ** JavaScript values the program manipulates *)

Module Js.

(** What a [catch] clause can receive. *)
Inductive js_exn : Type :=
| JsError (name message : string)   (* [error instanceof Error] *)
| JsThrown (str : string).          (* any other value; [str] is [String(v)] *)

(** [new Error(msg)] *)
Definition new_Error (msg : string) : js_exn := JsError "Error" msg.

(** [String(error)] and the template literal [`${error}`]:
    [Error.prototype.toString] for an [Error] instance. *)
Definition to_String (e : js_exn) : string :=
  match e with
  | JsError name message =>
      if String.eqb name "" then message
      else if String.eqb message "" then name
      else name +:+ ": " +:+ message
  | JsThrown str => str
  end.

(** [`${error.message}`]: a value that is not an [Error] has no [message]
    property, and a template literal prints [undefined] for it. *)
Definition message_in_template (e : js_exn) : string :=
  match e with
  | JsError _ message => message
  | JsThrown _ => "undefined"
  end.

(** The result of a library call: a thrown value or a result. *)
Definition result (A : Type) : Type := js_exn + A.

(** Truthiness of the values the program tests. *)
Definition truthy_string (s : string) : bool := negb (String.eqb s "").

Definition truthy_opt_string (o : option string) : bool :=
  match o with
  | Some s => truthy_string s
  | None => false                   (* undefined, null *)
  end.

Definition truthy_opt_bool (o : option bool) : bool :=
  match o with
  | Some b => b
  | None => false
  end.

(** [String.prototype.toLowerCase] on the letters of ASCII; the other bytes
    of the string are kept. *)
Definition lower_ascii (c : ascii) : ascii :=
  let n := nat_of_ascii c in
  if (Nat.leb 65 n && Nat.leb n 90)%bool then ascii_of_nat (n + 32) else c.

Fixpoint toLowerCase (s : string) : string :=
  match s with
  | EmptyString => EmptyString
  | String c r => String (lower_ascii c) (toLowerCase r)
  end.

Definition is_upper (c : ascii) : bool :=
  let n := nat_of_ascii c in (Nat.leb 65 n && Nat.leb n 90)%bool.

Fixpoint no_upper (s : string) : bool :=
  match s with
  | EmptyString => true
  | String c r => negb (is_upper c) && no_upper r
  end.

(** [String.prototype.startsWith] *)
Definition startsWith (s p : string) : bool := String.prefix p s.

(** The character occurs in the string. *)
Fixpoint has_char (c : ascii) (s : string) : bool :=
  match s with
  | EmptyString => false
  | String d r => Ascii.eqb d c || has_char c r
  end.

(** The string up to its first character of code 0: what a C string, and
    so an environment variable, holds of it. *)
Fixpoint c_string (s : string) : string :=
  match s with
  | EmptyString => EmptyString
  | String c r =>
      if Ascii.eqb c (ascii_of_nat 0) then EmptyString else String c (c_string r)
  end.

(** The string with these bytes. *)
Definition utf8 (bytes : list nat) : string :=
  string_of_list_ascii (map ascii_of_nat bytes).

(** The white space [String.prototype.trim] removes: the WhiteSpace and
    LineTerminator code points of ECMAScript, each in UTF-8. *)
Definition white_space : list string :=
  map utf8
    [[9]; [10]; [11]; [12]; [13];        (* U+0009 .. U+000D *)
     [32];                               (* U+0020 *)
     [194; 160];                         (* U+00A0 no-break space *)
     [225; 154; 128];                    (* U+1680 *)
     [226; 128; 128]; [226; 128; 129]; [226; 128; 130]; [226; 128; 131];
     [226; 128; 132]; [226; 128; 133]; [226; 128; 134]; [226; 128; 135];
     [226; 128; 136]; [226; 128; 137]; [226; 128; 138];   (* U+2000 .. U+200A *)
     [226; 128; 168]; [226; 128; 169];   (* U+2028, U+2029 *)
     [226; 128; 175];                    (* U+202F *)
     [226; 129; 159];                    (* U+205F *)
     [227; 128; 128];                    (* U+3000 *)
     [239; 187; 191]].                   (* U+FEFF byte order mark *)

(** The rest of [s] after the prefix [p]. *)
Fixpoint drop_prefix (p s : string) : option string :=
  match p, s with
  | EmptyString, _ => Some s
  | String a p', String b s' => if Ascii.eqb a b then drop_prefix p' s' else None
  | String _ _, EmptyString => None
  end.

(** The rest of [s] after one of the prefixes [ps], if it starts with one. *)
Fixpoint strip (ps : list string) (s : string) : option string :=
  match ps with
  | [] => None
  | p :: rest =>
      match drop_prefix p s with
      | Some r => Some r
      | None => strip rest s
      end
  end.

(** Strip prefixes among [ps] as long as there is one, at most [n] times. *)
Fixpoint strip_all (ps : list string) (n : nat) (s : string) : string :=
  match n with
  | O => s
  | S k =>
      match strip ps s with
      | Some r => strip_all ps k r
      | None => s
      end
  end.

(** [String.prototype.trimStart], [trimEnd] and [trim]; a string has no more
    white-space characters than bytes. *)
Definition trimStart (s : string) : string :=
  strip_all white_space (String.length s) s.

Definition trimEnd (s : string) : string :=
  String.rev (strip_all (map String.rev white_space) (String.length s) (String.rev s)).

Definition trim (s : string) : string := trimEnd (trimStart s).

(** [String.prototype.split] with a one-character separator: never empty. *)
Fixpoint split (sep : ascii) (s : string) : list string :=
  match s with
  | EmptyString => [EmptyString]
  | String c r =>
      if Ascii.eqb c sep then EmptyString :: split sep r
      else match split sep r with
           | [] => [String c EmptyString]
           | h :: t => String c h :: t
           end
  end.

(** [Array.prototype.join] *)
Definition join (sep : string) (l : list string) : string := String.concat sep l.

(** [s.includes(t)] *)
Fixpoint includes (s t : string) : bool :=
  String.prefix t s ||
  match s with
  | EmptyString => false
  | String _ r => includes r t
  end.

End Js.

Import Js.

(** ** The console *)

Inductive console : Type :=
| Log (args : list string)        (* [console.log(...)] *)
| Err (args : list string).       (* [console.error(...)] *)

(** ** Environment resolver: [validateEnvironment] *)

Module Env.

(** What the [try] block finds when it looks for the [.env] file of the
    working directory. *)
Inductive dotenv : Type :=
| NoDotenv                       (* [fs.existsSync(envPath)] is false *)
| DotenvThrows (e : js_exn)      (* [process.cwd] or [readFileSync] throws *)
| Dotenv (content : string).     (* the text [readFileSync] returns *)

(** How a call ends: with a value, or in [process.exit(code)]. *)
Inductive completion (A : Type) : Type :=
| Returns (a : A)
| Exits (code : nat).
Arguments Returns {A} a.
Arguments Exits {A} code.

(** The names under which every object finds a property it inherits from
    [Object.prototype]. *)
Definition Object_prototype : list string :=
  ["constructor"; "hasOwnProperty"; "isPrototypeOf"; "propertyIsEnumerable";
   "toLocaleString"; "toString"; "valueOf";
   "__defineGetter__"; "__defineSetter__"; "__lookupGetter__"; "__lookupSetter__";
   "__proto__"].

Definition inherited (k : string) : bool := existsb (String.eqb k) Object_prototype.

(** What reading a property gives on an object whose own properties are
    strings: [process.env], and the objects the two [reduce] calls build. *)
Inductive value : Type :=
| Str (s : string)            (* an own property *)
| Builtin (k : string).       (* [Object.prototype[k]]: a function, an object *)

(** Truthiness of a property read; [None] is [undefined]. *)
Definition truthy (o : option value) : bool :=
  match o with
  | Some (Str s) => truthy_string s
  | Some (Builtin _) => true
  | None => false
  end.

(** [String(x)] *)
Definition String_of (x : value) : string :=
  match x with
  | Str s => s
  | Builtin k =>
      if String.eqb k "__proto__" then "[object Object]"
      else if String.eqb k "constructor" then "function Object() { [native code] }"
      else "function " +:+ k +:+ "() { [native code] }"
  end.

(** [o[k]]: the own property, else the inherited one. *)
Definition get (o : gmap string string) (k : string) : option value :=
  match o !! k with
  | Some s => Some (Str s)
  | None => if inherited k then Some (Builtin k) else None
  end.

(** [process.env[k]] on the table [env] of the environment variables: no
    variable has the empty name. *)
Definition getenv (env : gmap string string) (k : string) : option value :=
  if String.eqb k "" then None else get env k.

(** [process.env[k] = x]: the variable is set to [String(x)], of which the
    environment holds the C string; setting the variable of the empty name
    does nothing. *)
Definition setenv (env : gmap string string) (k : string) (x : value)
  : gmap string string :=
  if String.eqb k "" then env else <[k := c_string (String_of x)]> env.

(** [acc[k] = s] on a plain object, for a string [s]: a new own property,
    except under [__proto__], whose setter ignores a string. *)
Definition put (acc : gmap string string) (k s : string) : gmap string string :=
  if String.eqb k "__proto__" then acc else <[k := s]> acc.

(** [!process.env[v]] *)
Definition is_missing (env : gmap string string) (v : string) : bool :=
  negb (truthy (getenv env v)).

(** The callback of [reduce] over the lines of the file; [acc] holds the own
    properties of the object. *)
Definition parse_line (acc : gmap string string) (line : string)
  : gmap string string :=
  match split "=" line with
  | key :: val =>
      if truthy_string key && negb (Nat.eqb (length val) 0)
      then put acc (trim key) (trim (join "=" val))
      else acc
  | [] => acc
  end.

Definition keep_line (line : string) : bool :=
  truthy_string (trim line) && negb (startsWith line "#").

Definition newline : ascii := ascii_of_nat 10.

(** The own properties of [envVars]. *)
Definition parse_dotenv (content : string) : gmap string string :=
  foldl parse_line ∅ (List.filter keep_line (split newline content)).

(** [missing.forEach((v) => { if (envVars[v]) process.env[v] = envVars[v] })] *)
Definition backfill_one (envVars env : gmap string string) (v : string)
  : gmap string string :=
  match get envVars v with
  | Some x => if truthy (Some x) then setenv env v x else env
  | None => env
  end.

Definition backfill (envVars : gmap string string) (missing : list string)
  (env : gmap string string) : gmap string string :=
  foldl (backfill_one envVars) env missing.

(** [vars.reduce((acc, key) => { acc[key] = process.env[key]; return acc }, {})]:
    the own properties of the result. A key whose value is [undefined] reads
    as [undefined] and is left out, and nothing becomes an own property
    under [__proto__]. *)
Definition collect (vars : list string) (env : gmap string string)
  : gmap string value :=
  foldl (fun acc key => match getenv env key with
                        | Some x => if String.eqb key "__proto__" then acc
                                    else <[key := x]> acc
                        | None => acc
                        end) ∅ vars.

(** [validateEnvironment(vars)] on the environment table [env]: the lines
    written to the console, the environment table afterwards, and the
    completion. *)
Definition validateEnvironment (vars : list string)
  (env : gmap string string) (file : dotenv)
  : list console * gmap string string * completion (gmap string value) :=
  let missing := List.filter (is_missing env) vars in
  if negb (Nat.eqb (length missing) 0) then
    let '(out, env1) :=
      match file with
      | NoDotenv => ([], env)
      | DotenvThrows e => ([Err [to_String e]], env)
      | Dotenv content => ([], backfill (parse_dotenv content) missing env)
      end in
    let stillMissing := List.filter (is_missing env1) vars in
    if negb (Nat.eqb (length stillMissing) 0) then
      (out ++ [Err ["Missing env vars:"; join ", " stillMissing]], env1, Exits 1)
    else (out, env1, Returns (collect vars env1))
  else ([], env, Returns (collect vars env)).

(** [envVars.KEY] on the mapping [validateEnvironment] returns, when it is a
    string. *)
Definition text (o : option value) : option string :=
  match o with
  | Some (Str s) => Some s
  | _ => None
  end.

(** The value the [.env] file gives to a key, when the file is read, as an
    environment variable holds it. *)
Definition file_value (file : dotenv) (v : string) : option string :=
  match file with
  | Dotenv content => c_string <$> parse_dotenv content !! v
  | _ => None
  end.

(** The keys that are unset or empty in the environment and get no non-empty
    value from the file. *)
Definition still_missing (vars : list string) (env : gmap string string)
  (file : dotenv) : list string :=
  List.filter (fun v => is_missing env v
                        && negb (truthy_opt_string (file_value file v))) vars.

(** A key that reads in [process.env] as the variable of that name and
    nothing else: a possible name of a variable (not empty, without [=] and
    without the character of code 0) that is no property of
    [Object.prototype]. *)
Definition ordinary_key (k : string) : bool :=
  truthy_string k && negb (inherited k)
  && negb (has_char "=" k) && negb (has_char (ascii_of_nat 0) k).

End Env.

(** ** Signer adapter: [createUser], [createSigner] *)

Inductive IdentifierKind : Type := Ethereum | Passkey.

Record Identifier : Type := {
  identifier : string;
  identifierKind : IdentifierKind;
}.

(** The object [createSigner] returns. *)
Record Signer : Type := {
  signer_type : string;                                   (* [type] *)
  getIdentifier : unit -> Identifier;
  signMessage : string -> result (list Byte.byte);
}.

(** The part of viem the code calls. *)
Class Viem : Type := {
  Account : Type;
  Wallet : Type;
  privateKeyToAccount : string -> result Account;
  address : Account -> string;                            (* [account.address] *)
  createWalletClient : Account -> Wallet;   (* on chain [base], transport [http()] *)
  wallet_signMessage : Wallet -> string -> Account -> result string;
  toBytes : string -> result (list Byte.byte);
}.

Section SignerAdapter.
Context {viem : Viem}.

Record User : Type := {
  key : string;
  account : Account;
  wallet : Wallet;
}.

Definition createUser (k : string) : result User :=
  match privateKeyToAccount k with
  | inl e => inl e
  | inr acc => inr {| key := k; account := acc; wallet := createWalletClient acc |}
  end.

Definition createSigner (k : string) : result Signer :=
  let sanitizedKey := if startsWith k "0x" then k else "0x" +:+ k in
  match createUser sanitizedKey with
  | inl e => inl e
  | inr user =>
      inr {| signer_type := "EOA";
             getIdentifier := fun _ =>
               {| identifierKind := Ethereum;
                  identifier := toLowerCase (address (account user)) |};
             signMessage := fun message =>
               match wallet_signMessage (wallet user) message (account user) with
               | inl e => inl e
               | inr signature => toBytes signature
               end |}
  end.

(** The identity of a signer, when [createSigner] returns one. *)
Definition identity_of (r : result Signer) : result Identifier :=
  match r with
  | inl e => inl e
  | inr signer => inr (getIdentifier signer tt)
  end.

End SignerAdapter.

(** ** The XMTP service: [XMTPService] *)

Record Member : Type := { inboxId : string }.

Record InboxState : Type := {
  identifiers : option (list Identifier);     (* [None]: no such property *)
}.

(** What [conversation.send] resolves to, a value other than [null] and
    [undefined]; the code reads its [id], which is [undefined] ([None]) on a
    value without that property. *)
Record SentMessage : Type := { sent_id : option string }.  (* [sentMessage.id] *)

Record ClientOptions : Type := {
  dbEncryptionKey : list Byte.byte;
  env : string;
  dbPath : string;
}.

(** The part of @xmtp/node-sdk the code calls, over a state [World] of the
    network and of the local database. Creating a client, synchronising,
    opening a conversation and sending change that state; listing
    conversations, reading inbox states, looking a conversation up and the
    capability check read it. *)
Class Xmtp : Type := {
  World : Type;
  Client : Type;
  Conversation : Type;
  members : Conversation -> list Member;                  (* [conv.members] *)
  Client_create : Signer -> ClientOptions -> World -> result Client * World;
  Client_canMessage : list Identifier -> string -> World -> result (gmap string bool);
  conversations_sync : Client -> World -> result unit * World;
  conversations_list : Client -> World -> result (list Conversation);
  conversations_getDmByInboxId :
    Client -> string -> World -> result (option Conversation);
  conversations_newDm : Client -> string -> World -> result Conversation * World;
  preferences_inboxStateFromInboxIds :
    Client -> list string -> World -> result (list InboxState);
  send : Conversation -> string -> World -> result SentMessage * World;
}.

(** [fromString] of uint8arrays, reached through a dynamic [import]. *)
Class Uint8arrays : Type := {
  fromString : string -> string -> result (list Byte.byte);
}.

Record Config : Type := {
  privateKey : string;
  encryptionKey : string;
  environment : string;
  cfg_dbPath : string;                                    (* [dbPath] *)
}.

(** [{success, messageId?, error?}]; [None] is a property that is missing
    or [undefined]. *)
Record RelayResult : Type := {
  success : bool;
  messageId : option string;
  error : option string;
}.

Section Service.
Context {viem : Viem} {u8 : Uint8arrays} {xmtp : Xmtp}.

(** The fields of [this]. *)
Record XMTPService : Type := {
  config : Config;
  client : option Client;                                 (* [null] at first *)
}.

(** What a run does to the outside, in order. *)
Inductive event : Type :=
| Console (c : console)
| CallCreate (who : Identifier) (opts : ClientOptions)
| CallSync
| CallList
| CallInboxState (inboxIds : list string)
| CallGetDm (inbox : string)
| CallCanMessage (ids : list Identifier) (network : string)
| CallNewDm (addr : string)
| CallSend (conv : Conversation) (message : string).

(** A method body: from the service object and the world to a result or a
    thrown value, the new service object and world, and the events. *)
Definition M (A : Type) : Type :=
  XMTPService * World -> result A * (XMTPService * World) * list event.

Definition ret {A} (a : A) : M A := fun st => (inr a, st, []).

Definition bind {A B} (m : M A) (k : A -> M B) : M B :=
  fun st =>
    match m st with
    | (inl e, st1, t1) => (inl e, st1, t1)
    | (inr a, st1, t1) => let '(r, st2, t2) := k a st1 in (r, st2, t1 ++ t2)
    end.

Definition throw {A} (e : js_exn) : M A := fun st => (inl e, st, []).

(** [try { body } catch (error) { handler }] *)
Definition try_catch {A} (body : M A) (handler : js_exn -> M A) : M A :=
  fun st =>
    match body st with
    | (inl e, st1, t1) => let '(r, st2, t2) := handler e st1 in (r, st2, t1 ++ t2)
    | ok => ok
    end.

Definition emit (ev : event) : M unit := fun st => (inr tt, st, [ev]).

Definition this_client : M (option Client) := fun st => (inr (client (fst st)), st, []).

Definition this_config : M Config := fun st => (inr (config (fst st)), st, []).

Definition set_client (c : option Client) : M unit :=
  fun st => (inr tt, ({| config := config (fst st); client := c |}, snd st), []).

(** A value that is already a result: a call that does not touch the world. *)
Definition lift {A} (r : result A) : M A := fun st => (r, st, []).

(** A call that changes the world. *)
Definition call {A} (ev : event) (op : World -> result A * World) : M A :=
  fun st => let '(r, w) := op (snd st) in (r, (fst st, w), [ev]).

(** A call that reads the world. *)
Definition query {A} (ev : event) (op : World -> result A) : M A :=
  fun st => (op (snd st), st, [ev]).

End Service.

Notation "x <- c1 ;; c2" := (bind c1 (fun x => c2))
  (at level 100, c1 at next level, right associativity).
Notation "c1 ;;; c2" := (bind c1 (fun _ => c2))
  (at level 100, c2 at level 200, right associativity).

Section ServiceMethods.
Context {viem : Viem} {u8 : Uint8arrays} {xmtp : Xmtp}.

Definition getEncryptionKeyFromHex (hex : string) : result (list Byte.byte) :=
  fromString hex "hex".

(** [initializeClient()] *)
Definition initializeClient : M unit :=
  cached <- this_client ;;
  match cached with
  | Some _ => ret tt
  | None =>
      try_catch
        (cfg <- this_config ;;
         signer <- lift (createSigner (privateKey cfg)) ;;
         key_bytes <- lift (getEncryptionKeyFromHex (encryptionKey cfg)) ;;
         let opts := {| dbEncryptionKey := key_bytes;
                        env := environment cfg;
                        dbPath := cfg_dbPath cfg |} in
         c <- call (CallCreate (getIdentifier signer tt) opts)
                   (Client_create signer opts) ;;
         set_client (Some c) ;;;
         emit (Console (Log ["✓ XMTP client initialized"])))
        (fun error =>
           emit (Console (Err ["Error initializing XMTP client:"; to_String error])) ;;;
           throw (new_Error ("Failed to initialize XMTP client: " +:+ to_String error)))
  end.

(** [if (!this.client) throw new Error("XMTP client not initialized")] *)
Definition require_client : M Client :=
  cached <- this_client ;;
  match cached with
  | Some c => ret c
  | None => throw (new_Error "XMTP client not initialized")
  end.

(** The innermost loop of [getInboxIdFromAddress]: does one of the
    identifiers equal the address, letter case apart? *)
Definition matches_address (addr : string) (ids : list Identifier) : bool :=
  existsb (fun i => String.eqb (toLowerCase (identifier i)) (toLowerCase addr)) ids.

(** [memberState[0]?.identifiers], then the loop over the identifiers. *)
Definition state_matches (addr : string) (memberState : list InboxState) : bool :=
  match memberState with
  | st0 :: _ =>
      match identifiers st0 with
      | Some ids => matches_address addr ids
      | None => false
      end
  | [] => false
  end.

(** The loop over [conv.members]; [Some] is the [return member.inboxId]. *)
Fixpoint scan_members (c : Client) (addr : string) (ms : list Member)
  : M (option string) :=
  match ms with
  | [] => ret None
  | member :: rest =>
      memberState <- query (CallInboxState [inboxId member])
                           (preferences_inboxStateFromInboxIds c [inboxId member]) ;;
      if state_matches addr memberState then ret (Some (inboxId member))
      else scan_members c addr rest
  end.

(** The loop over the conversations. *)
Fixpoint scan_conversations (c : Client) (addr : string) (convs : list Conversation)
  : M (option string) :=
  match convs with
  | [] => ret None
  | conv :: rest =>
      found <- scan_members c addr (members conv) ;;
      match found with
      | Some inbox => ret (Some inbox)
      | None => scan_conversations c addr rest
      end
  end.

(** [getInboxIdFromAddress(address)]; [None] is [null]. *)
Definition getInboxIdFromAddress (addr : string) : M (option string) :=
  try_catch
    (initializeClient ;;;
     c <- require_client ;;
     conversations <- query CallList (conversations_list c) ;;
     scan_conversations c addr conversations)
    (fun error =>
       emit (Console (Err ["Error getting inbox ID for address " +:+ addr +:+ ":";
                           to_String error])) ;;;
       ret None).

(** The block under [if (!conversation)] of [sendMessage]: the capability
    check, then the creation of a conversation from the address. *)
Definition create_conversation (c : Client) (recipientAddress : string)
  : M Conversation :=
  cfg <- this_config ;;
  let who := {| identifier := toLowerCase recipientAddress;
                identifierKind := Ethereum |} in
  canReceive <- query (CallCanMessage [who] (environment cfg))
                      (Client_canMessage [who] (environment cfg)) ;;
  if negb (truthy_opt_bool (canReceive !! toLowerCase recipientAddress))
  then throw (new_Error ("Address " +:+ recipientAddress
                         +:+ " cannot receive XMTP messages"))
  else
    try_catch
      (call (CallNewDm recipientAddress) (conversations_newDm c recipientAddress))
      (fun dmError =>
         throw (new_Error ("Cannot create conversation with " +:+ recipientAddress
                  +:+ ". They may need to be active on XMTP first. Original error: "
                  +:+ message_in_template dmError))).

(** [error instanceof Error ? error.message : String(error)] *)
Definition errorMessage_of (e : js_exn) : string :=
  match e with
  | JsError _ message => message
  | JsThrown _ => to_String e
  end.

(** The search for an existing conversation in [sendMessage]: the inbox of
    the address, then the one-to-one conversation of that inbox. *)
Definition lookup_conversation (c : Client) (recipientAddress : string)
  : M (option Conversation) :=
  recipientInboxId <- getInboxIdFromAddress recipientAddress ;;
  match recipientInboxId with
  | Some inbox =>
      if truthy_string inbox
      then query (CallGetDm inbox) (conversations_getDmByInboxId c inbox)
      else ret None
  | None => ret None
  end.

(** The end of the [try] block: send, log, build the result. *)
Definition deliver (recipientAddress message : string) (conversation : Conversation)
  : M RelayResult :=
  sentMessage <- call (CallSend conversation message) (send conversation message) ;;
  emit (Console (Log ["✓ Message sent to " +:+ recipientAddress])) ;;;
  ret {| success := true; messageId := sent_id sentMessage; error := None |}.

(** The [try] block of [sendMessage], once the client is there and the
    conversations are synchronised. *)
Definition relay (c : Client) (recipientAddress message : string) : M RelayResult :=
  existing <- lookup_conversation c recipientAddress ;;
  conversation <- match existing with
                  | Some conv => ret conv
                  | None => create_conversation c recipientAddress
                  end ;;
  deliver recipientAddress message conversation.

(** The [try] block of [sendMessage]. *)
Definition sendMessage_try (recipientAddress message : string) : M RelayResult :=
  initializeClient ;;;
  c <- require_client ;;
  call CallSync (conversations_sync c) ;;;
  relay c recipientAddress message.

(** The [catch] block of [sendMessage]. *)
Definition sendMessage_catch (recipientAddress : string) (e : js_exn) : M RelayResult :=
  let errorMessage := errorMessage_of e in
  emit (Console (Err ["Error sending message to " +:+ recipientAddress +:+ ":";
                      errorMessage])) ;;;
  ret {| success := false; messageId := None; error := Some errorMessage |}.

(** [sendMessage(recipientAddress, message)] *)
Definition sendMessage (recipientAddress message : string) : M RelayResult :=
  try_catch (sendMessage_try recipientAddress message)
            (sendMessage_catch recipientAddress).


(** [close()] *)
Definition close : M unit :=
  cached <- this_client ;;
  match cached with
  | Some _ => set_client None ;;; emit (Console (Log ["✓ XMTP connection closed"]))
  | None => ret tt
  end.

(** [n] calls of [initializeClient] in a row. *)
Fixpoint initializeClient_times (n : nat) : M unit :=
  match n with
  | O => ret tt
  | S k => initializeClient ;;; initializeClient_times k
  end.

(** The three components of a run. *)
Definition outcome {A} (m : M A) (st : XMTPService * World) : result A := fst (fst (m st)).
Definition final {A} (m : M A) (st : XMTPService * World) : XMTPService * World :=
  snd (fst (m st)).
Definition trace {A} (m : M A) (st : XMTPService * World) : list event := snd (m st).

(** Classes of events. *)
Definition is_create (ev : event) : bool :=
  match ev with CallCreate _ _ => true | _ => false end.
Definition is_canMessage (ev : event) : bool :=
  match ev with CallCanMessage _ _ => true | _ => false end.
Definition is_newDm (ev : event) : bool :=
  match ev with CallNewDm _ => true | _ => false end.
Definition is_send (ev : event) : bool :=
  match ev with CallSend _ _ => true | _ => false end.
Definition is_getDm (ev : event) : bool :=
  match ev with CallGetDm _ => true | _ => false end.

(** The events of [initializeClient]. *)
Definition is_init (ev : event) : bool :=
  match ev with Console _ | CallCreate _ _ => true | _ => false end.

(** The events of [getInboxIdFromAddress] once the client is cached. *)
Definition is_scan (ev : event) : bool :=
  match ev with
  | Console _ | CallList | CallInboxState _ => true
  | _ => false
  end.

(** The events of the search for an existing conversation. *)
Definition is_lookup (ev : event) : bool := is_scan ev || is_getDm ev.

(** Does the inbox of this member carry the address? [false] when reading
    the inbox state throws. *)
Definition member_matches (c : Client) (w : World) (addr : string) (m : Member) : bool :=
  match preferences_inboxStateFromInboxIds c [inboxId m] w with
  | inr memberState => state_matches addr memberState
  | inl _ => false
  end.

(** Reading the inbox state of this member does not throw. *)
Definition member_readable (c : Client) (w : World) (m : Member) : Prop :=
  exists memberState, preferences_inboxStateFromInboxIds c [inboxId m] w = inr memberState.

(** What [getInboxIdFromAddress] returns once the client is cached. *)
Definition resolution (c : Client) (addr : string) (st : XMTPService * World) : option string :=
  match conversations_list c (snd st) with
  | inr convs =>
      match outcome (scan_conversations c addr convs) st with
      | inr found => found
      | inl _ => None
      end
  | inl _ => None
  end.

(** What the search for an existing conversation returns once the client is
    cached. *)
Definition lookup_result (c : Client) (addr : string) (st : XMTPService * World)
  : result (option Conversation) :=
  match resolution c addr st with
  | Some inbox =>
      if truthy_string inbox then conversations_getDmByInboxId c inbox (snd st)
      else inr None
  | None => inr None
  end.

(** The inbox of this member is known under the address, letter case apart. *)
Definition carries_address (c : Client) (w : World) (addr : string) (m : Member) : Prop :=
  exists st0 others ids ident,
    preferences_inboxStateFromInboxIds c [inboxId m] w = inr (st0 :: others)
    /\ identifiers st0 = Some ids
    /\ In ident ids
    /\ toLowerCase (identifier ident) = toLowerCase addr.

(** The rest of the [try] block when no existing conversation was found. *)
Definition create_and_deliver (c : Client) (recipientAddress message : string)
  : M RelayResult :=
  conv <- create_conversation c recipientAddress ;;
  deliver recipientAddress message conv.

(** The argument of the capability check. *)
Definition capability_query (recipientAddress : string) : list Identifier :=
  [{| identifier := toLowerCase recipientAddress; identifierKind := Ethereum |}].

(** The success result of [sendMessage]. *)
Definition delivered (sent : SentMessage) : RelayResult :=
  {| success := true; messageId := sent_id sent; error := None |}.

(** The message of the error raised when the creation throws [dmError]. *)
Definition creation_failure (recipientAddress : string) (dmError : js_exn) : string :=
  "Cannot create conversation with " +:+ recipientAddress
  +:+ ". They may need to be active on XMTP first. Original error: "
  +:+ message_in_template dmError.

(** The failure result of [sendMessage]. *)
Definition failure (msg : string) : RelayResult :=
  {| success := false; messageId := None; error := Some msg |}.

(** The errors the service itself raises with [new Error]. *)
Definition own_error (recipientAddress : string) (e : js_exn) : Prop :=
  (exists cause, e = new_Error ("Failed to initialize XMTP client: " +:+ cause))
  \/ e = new_Error ("Address " +:+ recipientAddress +:+ " cannot receive XMTP messages")
  \/ (exists cause,
        e = new_Error ("Cannot create conversation with " +:+ recipientAddress
              +:+ ". They may need to be active on XMTP first. Original error: "
              +:+ cause)).

(** The thrown values that come out of a call of the SDK in [sendMessage]
    outside the scan: synchronisation, lookup of the one-to-one conversation,
    capability check, send. *)
Definition sdk_error (message : string) (e : js_exn) : Prop :=
  (exists c w, fst (conversations_sync c w) = inl e)
  \/ (exists c inbox w, conversations_getDmByInboxId c inbox w = inl e)
  \/ (exists ids network w, Client_canMessage ids network w = inl e)
  \/ (exists conv w, fst (send conv message w) = inl e).

(** The console lines of a trace. *)
Definition console_of (t : list event) : list console :=
  omap (fun ev => match ev with Console c => Some c | _ => None end) t.

(** The line [sendMessage] prints for the result it returns. *)
Definition relay_report (recipientAddress : string) (r : RelayResult) : console :=
  if success r then Log ["✓ Message sent to " +:+ recipientAddress]
  else Err ["Error sending message to " +:+ recipientAddress +:+ ":";
            default "" (error r)].

End ServiceMethods.

(** ** The bus listener: [EthereumRedisListener.handleMessage] *)

(** The JSON built-ins. *)
Class Json : Type := {
  JsonValue : Type;
  JSON_parse : string -> result JsonValue;
  JSON_stringify : JsonValue -> string;       (* [JSON.stringify(v, null, 2)] *)
}.

Section Listener.
Context {json : Json}.

Definition banner : string :=
  "📨 ==================== ETHEREUM MESSAGE ====================".

Definition footer : string :=
  "========================================================" +:+ String Env.newline "".

(** [handleMessage(message, channel)], with the time [new Date().toISOString()]
    it reads; the result is what it writes to the console. *)
Definition handleMessage (receivedAt message channel : string) : list console :=
  [Log [banner];
   Log ["🕒 Received: " +:+ receivedAt];
   Log ["📡 Channel: " +:+ channel];
   Log ["🔍 RAW MESSAGE:"; message]]
  ++ match JSON_parse message with
     | inr ethereumMessage =>
         [Log ["🔍 PARSED MESSAGE:"; JSON_stringify ethereumMessage]]
     | inl parseError =>
         [Err ["❌ JSON parsing error:"; message_in_template parseError]]
     end
  ++ [Log [footer]].

End Listener.

(** ** Concrete libraries, to run the model *)

Module Mock.

(** A key derivation that accepts [0x]-prefixed keys only and keeps the key
    visible in the address. *)
Definition viem : Viem := {|
  Account := string;
  Wallet := unit;
  privateKeyToAccount := fun k =>
    if startsWith k "0x" then inr ("0xADDR" +:+ k)
    else inl (JsError "InvalidPrivateKeyError" "private key must be hex");
  address := fun acc => acc;
  createWalletClient := fun _ => tt;
  wallet_signMessage := fun _ message _ => inr ("0x" +:+ message);
  toBytes := fun _ => inr [];
|}.

Definition u8 : Uint8arrays := {| fromString := fun _ _ => inr [] |}.

(** What each call of the SDK answers. *)
Record behaviour : Type := {
  on_create : result unit;
  on_sync : result unit;
  on_list : result (list (string * list Member));
  on_inboxState : list string -> result (list InboxState);
  on_getDm : string -> result (option (string * list Member));
  on_canMessage : result (gmap string bool);
  on_newDm : result (string * list Member);
  on_send : string -> result SentMessage;       (* by conversation name *)
}.

(** The world counts the calls that change it; a conversation is a name and
    its members. *)
Definition xmtp (b : behaviour) : Xmtp := {|
  World := nat;
  Client := unit;
  Conversation := string * list Member;
  members := snd;
  Client_create := fun _ _ w => (on_create b, S w);
  Client_canMessage := fun _ _ _ => on_canMessage b;
  conversations_sync := fun _ w => (on_sync b, S w);
  conversations_list := fun _ _ => on_list b;
  conversations_getDmByInboxId := fun _ inbox _ => on_getDm b inbox;
  conversations_newDm := fun _ _ w => (on_newDm b, S w);
  preferences_inboxStateFromInboxIds := fun _ ids _ => on_inboxState b ids;
  send := fun conv _ w => (on_send b (fst conv), S w);
|}.

Definition cfg : Config := {|
  privateKey := "ab12";
  encryptionKey := "00ff";
  environment := "dev";
  cfg_dbPath := "./data/xmtp_database";
|}.

(** A service as its constructor leaves it. *)
Definition fresh (b : behaviour) : @XMTPService (xmtp b) :=
  {| config := cfg; client := None |}.

(** The state before the first call: a fresh service, an untouched world. *)
Definition start (b : behaviour) : @XMTPService (xmtp b) * @World (xmtp b) :=
  (fresh b, 0).

Definition alice : string := "0xAbCdEf".

(** A network that knows one conversation with [alice]'s inbox. *)
Definition friendly : behaviour := {|
  on_create := inr tt;
  on_sync := inr tt;
  on_list := inr [("group", [{| inboxId := "inbox-bob" |}; {| inboxId := "inbox-alice" |}])];
  on_inboxState := fun ids =>
    match ids with
    | [i] => if String.eqb i "inbox-alice"
             then inr [{| identifiers := Some [{| identifier := "0xABCDEF";
                                                  identifierKind := Ethereum |}] |}]
             else inr [{| identifiers := None |}]
    | _ => inr []
    end;
  on_getDm := fun inbox =>
    if String.eqb inbox "inbox-alice"
    then inr (Some ("dm-alice", [{| inboxId := "inbox-alice" |}]))
    else inr None;
  on_canMessage := inr {[ "0xabcdef" := true ]};
  on_newDm := inr ("dm-new", []);
  on_send := fun _ => inr {| sent_id := Some "msg-1" |};
|}.

(** The same network when synchronising fails with [new Error()]. *)
Definition sync_fails_silently : behaviour := {|
  on_create := inr tt;
  on_sync := inl (JsError "Error" "");
  on_list := on_list friendly;
  on_inboxState := on_inboxState friendly;
  on_getDm := on_getDm friendly;
  on_canMessage := on_canMessage friendly;
  on_newDm := on_newDm friendly;
  on_send := on_send friendly;
|}.

(** The same network when synchronising fails with a message. *)
Definition sync_fails : behaviour := {|
  on_create := inr tt;
  on_sync := inl (JsError "Error" "network down");
  on_list := on_list friendly;
  on_inboxState := on_inboxState friendly;
  on_getDm := on_getDm friendly;
  on_canMessage := on_canMessage friendly;
  on_newDm := on_newDm friendly;
  on_send := on_send friendly;
|}.

(** A network without conversations where nobody can receive messages. *)
Definition unreachable : behaviour := {|
  on_create := inr tt;
  on_sync := inr tt;
  on_list := inr [];
  on_inboxState := fun _ => inr [];
  on_getDm := fun _ => inr None;
  on_canMessage := inr ∅;
  on_newDm := inl (JsError "Error" "no inbox");
  on_send := fun _ => inr {| sent_id := Some "msg-2" |};
|}.

(** A network without conversations where [alice] can receive messages and
    a conversation with her can be created. *)
Definition newcomer : behaviour := {|
  on_create := inr tt;
  on_sync := inr tt;
  on_list := inr [];
  on_inboxState := fun _ => inr [];
  on_getDm := fun _ => inr None;
  on_canMessage := inr {[ "0xabcdef" := true ]};
  on_newDm := inr ("dm-new", [{| inboxId := "inbox-alice" |}]);
  on_send := fun _ => inr {| sent_id := Some "msg-3" |};
|}.

(** The friendly network when reading an inbox state throws. *)
Definition unreadable : behaviour := {|
  on_create := inr tt;
  on_sync := inr tt;
  on_list := on_list friendly;
  on_inboxState := fun _ => inl (JsError "Error" "inbox state unavailable");
  on_getDm := on_getDm friendly;
  on_canMessage := on_canMessage friendly;
  on_newDm := on_newDm newcomer;
  on_send := on_send newcomer;
|}.

(** The friendly network when the send resolves to a value without [id]. *)
Definition anonymous : behaviour := {|
  on_create := inr tt;
  on_sync := inr tt;
  on_list := on_list friendly;
  on_inboxState := on_inboxState friendly;
  on_getDm := on_getDm friendly;
  on_canMessage := on_canMessage friendly;
  on_newDm := on_newDm friendly;
  on_send := fun _ => inr {| sent_id := None |};
|}.

(** The friendly network when the inbox state of the member listed before
    [alice] cannot be read, and a conversation can be created. *)
Definition bob_unreadable : behaviour := {|
  on_create := inr tt;
  on_sync := inr tt;
  on_list := on_list friendly;
  on_inboxState := fun ids =>
    match ids with
    | [i] => if String.eqb i "inbox-bob"
             then inl (JsError "Error" "inbox state unavailable")
             else on_inboxState friendly ids
    | _ => on_inboxState friendly ids
    end;
  on_getDm := on_getDm friendly;
  on_canMessage := on_canMessage friendly;
  on_newDm := on_newDm newcomer;
  on_send := on_send newcomer;
|}.

(** A JSON reader that knows one payload. *)
Definition payload : string :=
  "{" +:+ String (ascii_of_nat 34) "ethereumAddress" +:+ String (ascii_of_nat 34) ":"
  +:+ String (ascii_of_nat 34) "0xAbCdEf" +:+ String (ascii_of_nat 34) ","
  +:+ String (ascii_of_nat 34) "message" +:+ String (ascii_of_nat 34) ":"
  +:+ String (ascii_of_nat 34) "hi" +:+ String (ascii_of_nat 34) "}".

Definition json : Json := {|
  JsonValue := list (string * string);
  JSON_parse := fun text =>
    if String.eqb text payload
    then inr [("ethereumAddress", "0xAbCdEf"); ("message", "hi")]
    else inl (JsError "SyntaxError" "Unexpected token");
  JSON_stringify := fun v =>
    String.concat ", " (map (fun kv => fst kv +:+ ": " +:+ snd kv) v);
|}.

(** The SDK on each of these networks. *)
Definition friendly_net : Xmtp := xmtp friendly.
Definition unreachable_net : Xmtp := xmtp unreachable.
Definition newcomer_net : Xmtp := xmtp newcomer.
Definition unreadable_net : Xmtp := xmtp unreadable.
Definition anonymous_net : Xmtp := xmtp anonymous.
Definition bob_unreadable_net : Xmtp := xmtp bob_unreadable.

End Mock.

(** ** Reading strings *)

(** One line of a [.env] file: [KEY=VALUE]. *)
Definition assignment (k v : string) : string := k +:+ "=" +:+ v.

(** One more line at the end of a text. *)
Definition add_line (content line : string) : string :=
  content +:+ String Env.newline line.

(** ** The rest of the service: [canMessage], [sendXMTPMessage], the constructor *)

Section ServiceRest.
Context {viem : Viem} {u8 : Uint8arrays} {xmtp : Xmtp}.

(** [try { body } finally { cleanup }]: the cleanup runs whatever the body
    did; what it throws replaces the outcome of the body. *)
Definition try_finally {A} (body : M A) (cleanup : M unit) : M A :=
  fun st =>
    let '(r, st1, t1) := body st in
    match cleanup st1 with
    | (inl e, st2, t2) => (inl e, st2, t1 ++ t2)
    | (inr _, st2, t2) => (r, st2, t1 ++ t2)
    end.

(** The argument of [canMessage]: one address or an array of addresses. *)
Inductive addresses : Type :=
| One (addr : string)
| Many (addrs : list string).

(** What [canMessage] returns: a boolean or a [Map]. *)
Inductive capability : Type :=
| Flag (b : bool)
| Table (m : gmap string bool).

(** [!canReceive]: a [Map] is an object, hence truthy. *)
Definition truthy_capability (c : capability) : bool :=
  match c with
  | Flag b => b
  | Table _ => true
  end.

(** [Array.isArray(addresses) ? addresses : [addresses]] *)
Definition addressArray (a : addresses) : list string :=
  match a with
  | One addr => [addr]
  | Many addrs => addrs
  end.

Definition identifier_of_address (addr : string) : Identifier :=
  {| identifier := toLowerCase addr; identifierKind := Ethereum |}.

(** [new Map(addresses.map(addr => [addr.toLowerCase(), false]))] *)
Definition all_false (addrs : list string) : gmap string bool :=
  list_to_map (map (fun addr => (toLowerCase addr, false)) addrs).

(** [canMessage(addresses)] *)
Definition canMessage (a : addresses) : M capability :=
  try_catch
    (let identifiers := map identifier_of_address (addressArray a) in
     cfg <- this_config ;;
     canMessageMap <- query (CallCanMessage identifiers (environment cfg))
                            (Client_canMessage identifiers (environment cfg)) ;;
     match a with
     | One addr => ret (Flag (truthy_opt_bool (canMessageMap !! toLowerCase addr)))
     | Many _ => ret (Table canMessageMap)
     end)
    (fun error =>
       emit (Console (Err ["Error checking addresses:"; to_String error])) ;;;
       match a with
       | Many addrs => ret (Table (all_false addrs))
       | One _ => ret (Flag false)
       end).

(** [sendXMTPMessage(address, message)] from its [try] on, run on the service
    that [createXMTPService()] returned. *)
Definition sendXMTPMessage_on (address message : string) : M bool :=
  try_finally
    (try_catch
       (canReceive <- canMessage (One address) ;;
        if negb (truthy_capability canReceive) then
          emit (Console (Log ["⚠️ Address " +:+ address
                              +:+ " cannot receive XMTP messages"])) ;;;
          ret false
        else
          result <- sendMessage address message ;;
          if success result then
            emit (Console (Log ["✓ Message sent successfully to " +:+ address])) ;;;
            ret true
          else
            emit (Console (Err ["✗ Failed to send to " +:+ address +:+ ": "
                                +:+ default "undefined" (error result)])) ;;;
            ret false)
       (fun error =>
          emit (Console (Err ["Error sending to " +:+ address +:+ ":";
                              to_String error])) ;;;
          ret false))
    close.

(** The [config] argument of the constructor; [None] is a missing property. *)
Record ConfigArg : Type := {
  arg_privateKey : option string;
  arg_encryptionKey : option string;
  arg_environment : option string;
  arg_dbPath : option string;
}.

(** [{}] *)
Definition no_config : ConfigArg :=
  {| arg_privateKey := None; arg_encryptionKey := None;
     arg_environment := None; arg_dbPath := None |}.

(** [a || b] on strings that may be undefined. *)
Definition or_else (a b : option string) : option string :=
  if truthy_opt_string a then a else b.

Definition required_keys : list string :=
  ["PRIVATE_KEY"; "XMTP_DB_ENCRYPTION_KEY"; "XMTP_ENV"].

Definition default_dbPath : string := "./data/xmtp_database".

(** [new XMTPService(config)]: the console lines and the environment table
    of [validateEnvironment], and the new object unless the process exits.
    A field that is [undefined] or no string would read as the empty string
    here; the mapping [validateEnvironment] returns defines the three
    required keys as strings, so that no field is. *)
Definition new_XMTPService (arg : ConfigArg) (env : gmap string string)
  (file : Env.dotenv)
  : list console * gmap string string * Env.completion XMTPService :=
  let '(out, env1, c) := Env.validateEnvironment required_keys env file in
  match c with
  | Env.Exits code => (out, env1, Env.Exits code)
  | Env.Returns envVars =>
      (out, env1,
       Env.Returns
         {| config :=
              {| privateKey :=
                   default "" (or_else (arg_privateKey arg)
                                       (Env.text (envVars !! "PRIVATE_KEY")));
                 encryptionKey :=
                   default "" (or_else (arg_encryptionKey arg)
                                       (Env.text (envVars !! "XMTP_DB_ENCRYPTION_KEY")));
                 environment :=
                   default "" (or_else (arg_environment arg)
                                       (Env.text (envVars !! "XMTP_ENV")));
                 cfg_dbPath :=
                   default "" (or_else (arg_dbPath arg)
                                 (or_else (env1 !! "XMTP_DB_PATH") (Some default_dbPath)))
              |};
            client := None |})
  end.

(** [createXMTPService(config)] *)
Definition createXMTPService := new_XMTPService.

(** [sendXMTPMessage(address, message)] in a process with the environment
    table [env] and the world [w]: what the constructor prints, then the run
    of the rest unless the process exits. *)
Definition sendXMTPMessage (address message : string)
  (env : gmap string string) (file : Env.dotenv) (w : World)
  : list console * Env.completion (result bool * (XMTPService * World) * list event) :=
  let '(out, _, c) := createXMTPService no_config env file in
  match c with
  | Env.Exits code => (out, Env.Exits code)
  | Env.Returns xmtpService =>
      (out, Env.Returns (sendXMTPMessage_on address message (xmtpService, w)))
  end.

End ServiceRest.

(** The value a required key ends up with: the one of the environment
    unless it is unset or empty there, else the one of the file. *)
Definition setting (env : gmap string string) (file : Env.dotenv) (k : string)
  : option string :=
  if Env.is_missing env k then Env.file_value file k else env !! k.

(** ** Notions for the properties of the service *)

Section ServiceNotions.
Context {viem : Viem} {u8 : Uint8arrays} {xmtp : Xmtp}.

(** A result whose optional fields go with [success]: no [error] on a
    success; an [error] and no [messageId] on a failure. *)
Definition coherent (r : RelayResult) : Prop :=
  (success r = true /\ error r = None)
  \/ (success r = false /\ is_Some (error r) /\ messageId r = None).



(** A method body that leaves the configuration alone and, when a client is
    cached, keeps it and calls no constructor. *)
Definition keeps_service {A} (m : M A) : Prop :=
  forall st,
    config (fst (final m st)) = config (fst st)
    /\ forall c, client (fst st) = Some c ->
         client (fst (final m st)) = Some c
         /\ List.filter is_create (trace m st) = [].

(** The options [initializeClient] gives to [Client.create]. *)
Definition client_options (cfg : Config) (key_bytes : list Byte.byte) : ClientOptions :=
  {| dbEncryptionKey := key_bytes; env := environment cfg; dbPath := cfg_dbPath cfg |}.

(** What makes [initializeClient] fail, in the order of its steps. *)
Inductive init_failure (st : XMTPService * World) (cause : js_exn) : Prop :=
| SignerFails :
    createSigner (privateKey (config (fst st))) = inl cause ->
    init_failure st cause
| KeyFails signer :
    createSigner (privateKey (config (fst st))) = inr signer ->
    getEncryptionKeyFromHex (encryptionKey (config (fst st))) = inl cause ->
    init_failure st cause
| CreateFails signer key_bytes :
    createSigner (privateKey (config (fst st))) = inr signer ->
    getEncryptionKeyFromHex (encryptionKey (config (fst st))) = inr key_bytes ->
    fst (Client_create signer (client_options (config (fst st)) key_bytes) (snd st))
    = inl cause ->
    init_failure st cause.

(** The failure reaches the network: the first two steps succeed. *)
Definition reaches_create (st : XMTPService * World) : bool :=
  match createSigner (privateKey (config (fst st))),
        getEncryptionKeyFromHex (encryptionKey (config (fst st))) with
  | inr _, inr _ => true
  | _, _ => false
  end.

(** The answer of the capability check for one address in this state;
    [false] when the check throws. *)
Definition can_receive_now (st : XMTPService * World) (addr : string) : bool :=
  match Client_canMessage [identifier_of_address addr]
          (environment (config (fst st))) (snd st) with
  | inr canMessageMap => truthy_opt_bool (canMessageMap !! toLowerCase addr)
  | inl _ => false
  end.

(** [sendMessage] reports a success in this state. *)
Definition sends_now (st : XMTPService * World) (addr message : string) : bool :=
  match outcome (sendMessage addr message) st with
  | inr r => success r
  | inl _ => false
  end.

(** The calls of the scan. *)
Definition is_scan_call (ev : event) : bool :=
  match ev with
  | CallCreate _ _ | CallList | CallInboxState _ => true
  | _ => false
  end.

Definition is_sync (ev : event) : bool :=
  match ev with CallSync => true | _ => false end.

(** The calls that reach the network for a send. *)
Definition is_network_send (ev : event) : bool :=
  is_create ev || is_sync ev || is_newDm ev || is_send ev.

End ServiceNotions.

(** ** The rest of the bus listener: [EthereumRedisListener], [main] *)

(** What the redis client makes the listener run while a call is awaited:
    the two events the listener registers for, and the callback of the
    subscription. *)
Inductive signal : Type :=
| Connected                                   (* the [connect] event *)
| Failed (err : js_exn)                       (* the [error] event *)
| Published (message channel : string).       (* a message for the callback *)

(** The part of the redis library the code calls, over a state [RWorld] of
    the server and the connection, and the clock. An awaited call also tells
    which signals the client emitted while the listener waited. *)
Class Redis : Type := {
  RWorld : Type;
  RClient : Type;
  createClient : string -> RWorld -> result RClient * RWorld;
  client_connect : RClient -> RWorld -> result unit * RWorld * list signal;
  client_subscribe : RClient -> string -> RWorld -> result unit * RWorld * list signal;
  client_unsubscribe : RClient -> string -> RWorld -> result unit * RWorld * list signal;
  client_quit : RClient -> RWorld -> result unit * RWorld * list signal;
  now : RWorld -> string;                     (* [new Date().toISOString()] *)
}.

Definition REDIS_URL : string := "redis://localhost:6379".     (* [REDIS_CONFIG.url] *)
Definition ETHEREUM_CHANNEL : string := "ethereum-messages".

(** [{connected, channel, timestamp}] *)
Record Status : Type := {
  connected : bool;
  channel : string;
  timestamp : string;
}.

(** How a handler of the process ends. *)
Inductive ending : Type :=
| StaysAlive
| ExitsWith (code : nat)                      (* [process.exit(code)] *)
| Rejects (e : js_exn).                       (* an exception leaves it *)

Section ListenerRest.
Context {json : Json} {redis : Redis}.

(** The fields of [this]. *)
Record EthereumRedisListener : Type := {
  subscriber : option RClient;
  isConnected : bool;
}.

(** [new EthereumRedisListener()] *)
Definition new_listener : EthereumRedisListener :=
  {| subscriber := None; isConnected := false |}.

(** What a run of the listener does to the outside, in order. *)
Inductive levent : Type :=
| Print (c : console)
| RedisCreate (url : string)
| RedisOn (name : string)
| RedisConnect
| RedisSubscribe (chan : string)
| RedisUnsubscribe (chan : string)
| RedisQuit
| ProcessOn (name : string)
| StdinResume.

(** A method body of the listener. *)
Definition LM (A : Type) : Type :=
  EthereumRedisListener * RWorld
  -> result A * (EthereumRedisListener * RWorld) * list levent.

Definition lret {A} (a : A) : LM A := fun st => (inr a, st, []).

Definition lbind {A B} (m : LM A) (k : A -> LM B) : LM B :=
  fun st =>
    match m st with
    | (inl e, st1, t1) => (inl e, st1, t1)
    | (inr a, st1, t1) => let '(r, st2, t2) := k a st1 in (r, st2, t1 ++ t2)
    end.

Definition lthrow {A} (e : js_exn) : LM A := fun st => (inl e, st, []).

Definition ltry_catch {A} (body : LM A) (handler : js_exn -> LM A) : LM A :=
  fun st =>
    match body st with
    | (inl e, st1, t1) => let '(r, st2, t2) := handler e st1 in (r, st2, t1 ++ t2)
    | ok => ok
    end.

Definition lemit (ev : levent) : LM unit := fun st => (inr tt, st, [ev]).

Definition print_all (lines : list console) : LM unit :=
  fun st => (inr tt, st, map Print lines).

Definition this_subscriber : LM (option RClient) :=
  fun st => (inr (subscriber (fst st)), st, []).

Definition set_subscriber (c : RClient) : LM unit :=
  fun st => (inr tt, ({| subscriber := Some c; isConnected := isConnected (fst st) |},
                      snd st), []).

Definition set_isConnected (b : bool) : LM unit :=
  fun st => (inr tt, ({| subscriber := subscriber (fst st); isConnected := b |},
                      snd st), []).

Definition read_clock : LM string := fun st => (inr (now (snd st)), st, []).

(** The handlers of [connect], and the callback of [subscribe]. *)
Definition react (s : signal) : LM unit :=
  match s with
  | Connected =>
      lbind (lemit (Print (Log ["✅ Connected to Redis"])))
            (fun _ => set_isConnected true)
  | Failed err =>
      lbind (lemit (Print (Err ["❌ Redis error:"; message_in_template err])))
            (fun _ => set_isConnected false)
  | Published message chan =>
      lbind read_clock
            (fun receivedAt => print_all (handleMessage receivedAt message chan))
  end.

Fixpoint dispatch (signals : list signal) : LM unit :=
  match signals with
  | [] => lret tt
  | s :: rest => lbind (react s) (fun _ => dispatch rest)
  end.

(** A call that is not awaited. *)
Definition lcall {A} (ev : levent) (op : RWorld -> result A * RWorld) : LM A :=
  fun st => let '(r, w) := op (snd st) in (r, (fst st, w), [ev]).

(** [await] of a call of the client: the call, then the handlers of what the
    client emitted meanwhile, then the result of the call. *)
Definition await {A} (ev : levent) (op : RWorld -> result A * RWorld * list signal)
  : LM A :=
  fun st =>
    let '(r, w, signals) := op (snd st) in
    match dispatch signals (fst st, w) with
    | (inl e, st1, t1) => (inl e, st1, ev :: t1)
    | (inr _, st1, t1) => (r, st1, ev :: t1)
    end.

(** [connect()] *)
Definition connect : LM unit :=
  ltry_catch
    (lbind (lemit (Print (Log ["🔄 Connecting to Redis..."]))) (fun _ =>
     lbind (lcall (RedisCreate REDIS_URL) (createClient REDIS_URL)) (fun c =>
     lbind (set_subscriber c) (fun _ =>
     lbind (lemit (RedisOn "connect")) (fun _ =>
     lbind (lemit (RedisOn "error")) (fun _ =>
     await RedisConnect (client_connect c)))))))
    (fun error =>
       lbind (lemit (Print (Err ["💥 Connection error:"; message_in_template error])))
             (fun _ => lthrow error)).

(** What reading [subscribe] off [null] throws. *)
Definition null_subscriber : js_exn :=
  JsError "TypeError" "Cannot read properties of null (reading 'subscribe')".

(** [subscribe()] *)
Definition subscribe : LM unit :=
  ltry_catch
    (lbind (lemit (Print (Log ["📡 Subscribing to channel: " +:+ ETHEREUM_CHANNEL])))
       (fun _ =>
     lbind this_subscriber (fun s =>
     match s with
     | None => lthrow null_subscriber
     | Some c =>
         lbind (await (RedisSubscribe ETHEREUM_CHANNEL)
                      (client_subscribe c ETHEREUM_CHANNEL)) (fun _ =>
         lemit (Print (Log ["✅ Listening on " +:+ ETHEREUM_CHANNEL +:+ "..."
                            +:+ String Env.newline ""])))
     end)))
    (fun error =>
       lbind (lemit (Print (Err ["💥 Subscription error:"; message_in_template error])))
             (fun _ => lthrow error)).

(** [disconnect()] *)
Definition disconnect : LM unit :=
  ltry_catch
    (lbind this_subscriber (fun s =>
     match s with
     | Some c =>
         lbind (await (RedisUnsubscribe ETHEREUM_CHANNEL)
                      (client_unsubscribe c ETHEREUM_CHANNEL)) (fun _ =>
         lbind (await RedisQuit (client_quit c)) (fun _ =>
         lemit (Print (Log ["✅ Disconnected from Redis"]))))
     | None => lret tt
     end))
    (fun error =>
       lemit (Print (Err ["❌ Disconnection error:"; message_in_template error]))).

(** [getStatus()] *)
Definition getStatus (st : EthereumRedisListener * RWorld) : Status :=
  {| connected := isConnected (fst st);
     channel := ETHEREUM_CHANNEL;
     timestamp := now (snd st) |}.

Definition quoted (s : string) : string :=
  String (ascii_of_nat 34) s +:+ String (ascii_of_nat 34) "".

(** [JSON.stringify(status, null, 2)]; an ISO time and the channel need no
    escape. *)
Definition stringify_status (s : Status) : string :=
  let nl := String Env.newline "" in
  "{" +:+ nl
  +:+ "  " +:+ quoted "connected" +:+ ": "
  +:+ (if connected s then "true" else "false") +:+ "," +:+ nl
  +:+ "  " +:+ quoted "channel" +:+ ": " +:+ quoted (channel s) +:+ "," +:+ nl
  +:+ "  " +:+ quoted "timestamp" +:+ ": " +:+ quoted (timestamp s) +:+ nl
  +:+ "}".

(** The [try] block of [main]. *)
Definition startup : LM unit :=
  lbind connect (fun _ =>
  lbind subscribe (fun _ =>
  lbind (lemit (Print (Log ["💡 Press Ctrl+C to stop gracefully"]))) (fun _ =>
  lbind (fun st => (inr (getStatus st), st, [])) (fun status =>
  lbind (lemit (Print (Log ["📊 Status: " +:+ stringify_status status]))) (fun _ =>
  lemit StdinResume))))).

(** [main()] in the world [w]: how it ends, the listener and the world it
    leaves, what it did. *)
Definition main (w : RWorld)
  : ending * (EthereumRedisListener * RWorld) * list levent :=
  let registered := [ProcessOn "SIGINT"; ProcessOn "SIGTERM"] in
  match startup (new_listener, w) with
  | (inr _, st, t) => (StaysAlive, st, registered ++ t)
  | (inl error, st, t) =>
      (ExitsWith 1, st,
       registered ++ t
       ++ [Print (Err ["💥 Startup error:"; message_in_template error])])
  end.

(** A handler of a signal of the process: [body], then [process.exit(0)]. *)
Definition then_exit (body : LM unit) (st : EthereumRedisListener * RWorld)
  : ending * (EthereumRedisListener * RWorld) * list levent :=
  match body st with
  | (inr _, st1, t) => (ExitsWith 0, st1, t)
  | (inl e, st1, t) => (Rejects e, st1, t)
  end.

(** The handler of [SIGINT]. *)
Definition on_SIGINT : EthereumRedisListener * RWorld
                       -> ending * (EthereumRedisListener * RWorld) * list levent :=
  then_exit
    (lbind (lemit (Print (Log [String Env.newline "🛑 Graceful shutdown initiated..."])))
       (fun _ =>
     lbind disconnect (fun _ =>
     lemit (Print (Log ["👋 Goodbye!"]))))).

(** The handler of [SIGTERM]. *)
Definition on_SIGTERM : EthereumRedisListener * RWorld
                        -> ending * (EthereumRedisListener * RWorld) * list levent :=
  then_exit
    (lbind (lemit (Print (Log [String Env.newline "🛑 SIGTERM received, shutting down..."])))
       (fun _ => disconnect)).

(** Classes of events of the listener. *)
Definition is_redis_call (ev : levent) : bool :=
  match ev with
  | RedisCreate _ | RedisConnect | RedisSubscribe _ | RedisUnsubscribe _ | RedisQuit => true
  | _ => false
  end.

Definition is_quit (ev : levent) : bool :=
  match ev with RedisQuit => true | _ => false end.

Definition is_subscribe (ev : levent) : bool :=
  match ev with RedisSubscribe _ => true | _ => false end.

(** The connection flag after a list of signals. *)
Definition link_after (signals : list signal) (before : bool) : bool :=
  fold_left (fun b s => match s with
                        | Connected => true
                        | Failed _ => false
                        | Published _ _ => b
                        end) signals before.

(** The signals are all messages. *)
Definition only_messages (signals : list signal) : bool :=
  forallb (fun s => match s with Published _ _ => true | _ => false end) signals.

(** The three components of a run of the listener. *)
Definition loutcome {A} (m : LM A) (st : EthereumRedisListener * RWorld) : result A :=
  fst (fst (m st)).
Definition lfinal {A} (m : LM A) (st : EthereumRedisListener * RWorld)
  : EthereumRedisListener * RWorld := snd (fst (m st)).
Definition ltrace {A} (m : LM A) (st : EthereumRedisListener * RWorld) : list levent :=
  snd (m st).

(** The listener with another connection flag. *)
Definition with_link (l : EthereumRedisListener) (b : bool) : EthereumRedisListener :=
  {| subscriber := subscriber l; isConnected := b |}.

(** What the client emits while [disconnect] waits: during [unsubscribe],
    then during [quit] when [unsubscribe] did not throw. *)
Definition disconnect_signals (c : RClient) (w : RWorld) : list signal :=
  let '(r, w1, s1) := client_unsubscribe c ETHEREUM_CHANNEL w in
  match r with
  | inl _ => s1
  | inr _ => s1 ++ snd (client_quit c w1)
  end.

End ListenerRest.

(** ** More concrete libraries *)

Module MockMore.

(** The friendly network when [Client.create] throws. *)
Definition create_fails : Mock.behaviour := {|
  Mock.on_create := inl (JsError "Error" "database locked");
  Mock.on_sync := inr tt;
  Mock.on_list := Mock.on_list Mock.friendly;
  Mock.on_inboxState := Mock.on_inboxState Mock.friendly;
  Mock.on_getDm := Mock.on_getDm Mock.friendly;
  Mock.on_canMessage := Mock.on_canMessage Mock.friendly;
  Mock.on_newDm := Mock.on_newDm Mock.friendly;
  Mock.on_send := Mock.on_send Mock.friendly;
|}.

Definition create_fails_net : Xmtp := Mock.xmtp create_fails.

(** The friendly network seen from a service that has its client. *)
Definition ready : @XMTPService Mock.friendly_net * @World Mock.friendly_net :=
  (final (@initializeClient Mock.viem Mock.u8 Mock.friendly_net) (Mock.start Mock.friendly)).

(** A redis server that accepts everything; the world counts the calls, the
    client announces its connection while [connect] is awaited, and a
    message is delivered while [subscribe] is awaited. *)
Definition redis_up : Redis := {|
  RWorld := nat;
  RClient := string;
  createClient := fun url w => (inr url, S w);
  client_connect := fun _ w => (inr tt, S w, [Connected]);
  client_subscribe := fun _ chan w => (inr tt, S w, [Published Mock.payload chan]);
  client_unsubscribe := fun _ _ w => (inr tt, S w, []);
  client_quit := fun _ w => (inr tt, S w, []);
  now := fun _ => "2025-01-01T00:00:00.000Z";
|}.

(** A redis server that refuses the connection. *)
Definition redis_down : Redis := {|
  RWorld := nat;
  RClient := string;
  createClient := fun url w => (inr url, S w);
  client_connect := fun _ w =>
    (inl (JsError "Error" "connect ECONNREFUSED"), S w,
     [Failed (JsError "Error" "connect ECONNREFUSED")]);
  client_subscribe := fun _ _ w => (inr tt, S w, []);
  client_unsubscribe := fun _ _ w => (inl (JsError "Error" "The client is closed"), S w, []);
  client_quit := fun _ w => (inr tt, S w, []);
  now := fun _ => "2025-01-01T00:00:00.000Z";
|}.

(** An argument of the constructor that gives the three required values. *)
Definition full_config : ConfigArg :=
  {| arg_privateKey := Some "0xab12"; arg_encryptionKey := Some "00ff";
     arg_environment := Some "dev"; arg_dbPath := None |}.

End MockMore.

(** * Properties *)

(** *** Strings and lists *)

Section Basics.

Example string_functions :
  split "=" "A=b=c" = ["A"; "b"; "c"]
  /\ split "=" "" = [""]
  /\ join "=" ["b"; "c"] = "b=c"
  /\ trim "  a b  " = "a b"
  /\ trim (utf8 [239; 187; 191] +:+ "KEY" +:+ utf8 [194; 160; 9; 227; 128; 128]) = "KEY"
  /\ trim (utf8 [32; 226; 128; 168; 13]) = ""
  /\ c_string (utf8 [97; 0; 98]) = "a"
  /\ toLowerCase "0xABcd" = "0xabcd"
  /\ startsWith "0xab" "0x" = true
  /\ includes "Address 0xAb cannot" "0xAb" = true.
Proof. repeat split; reflexivity. Qed.

Lemma prefix_append (s q : string) : String.prefix s (s +:+ q) = true.
Proof.
  induction s as [|a s IH]; [destruct q; reflexivity|].
  change (String.prefix (String a s) (String a (s +:+ q)) = true). simpl.
  destruct (Ascii.ascii_dec a a); [exact IH | congruence].
Qed.

Lemma startsWith_prepended (p s : string) : startsWith (p +:+ s) p = true.
Proof. apply prefix_append. Qed.

Lemma includes_unfold (s t : string) :
  includes s t
  = (String.prefix t s || match s with EmptyString => false | String _ r => includes r t end).
Proof. destruct s; reflexivity. Qed.

Lemma includes_middle (p s q : string) : includes (p +:+ s +:+ q) s = true.
Proof.
  induction p as [|a p IH].
  - change (includes (s +:+ q) s = true).
    rewrite includes_unfold, prefix_append. reflexivity.
  - change (includes (String a (p +:+ s +:+ q)) s = true).
    rewrite includes_unfold, IH. apply orb_true_r.
Qed.

Lemma no_upper_toLowerCase (s : string) : no_upper (toLowerCase s) = true.
Proof.
  induction s as [|ch s IH]; [reflexivity|].
  simpl. rewrite IH, andb_true_r.
  destruct ch as [[] [] [] [] [] [] [] []]; reflexivity.
Qed.

(** **** White space *)

Lemma has_char_append c a b :
  has_char c (a +:+ b) = has_char c a || has_char c b.
Proof.
  induction a as [|d a IH]; [reflexivity|].
  change (has_char c (String d (a +:+ b)) = has_char c (String d a) || has_char c b).
  simpl. rewrite IH. apply orb_assoc.
Qed.

Lemma has_char_rev_app c a b :
  has_char c (String.rev_app a b) = has_char c a || has_char c b.
Proof.
  revert b. induction a as [|d a IH]; intros b; [reflexivity|].
  simpl. rewrite IH. simpl.
  destruct (Ascii.eqb d c), (has_char c a), (has_char c b); reflexivity.
Qed.

Lemma has_char_rev c s : has_char c (String.rev s) = has_char c s.
Proof. unfold String.rev. rewrite has_char_rev_app. apply orb_false_r. Qed.

Lemma drop_prefix_append p s r : drop_prefix p s = Some r -> s = p +:+ r.
Proof.
  revert s. induction p as [|a p IH]; intros s; simpl.
  - intros [= ->]. reflexivity.
  - destruct s as [|b s]; [discriminate|].
    destruct (Ascii.eqb_spec a b) as [->|_]; [|discriminate].
    intros H. rewrite (IH s H). reflexivity.
Qed.

Lemma strip_append ps s r : strip ps s = Some r -> exists p, In p ps /\ s = p +:+ r.
Proof.
  induction ps as [|p ps IH]; simpl; [discriminate|].
  destruct (drop_prefix p s) as [r'|] eqn:Hp.
  - intros [= ->]. exists p. split; [left; reflexivity | apply drop_prefix_append, Hp].
  - intros H. destruct (IH H) as (q & Hq & Hs). exists q. split; [right|]; assumption.
Qed.

(** Stripping prefixes that do not hold a character keeps its occurrences. *)
Lemma has_char_strip_all c ps n s :
  (forall p, In p ps -> has_char c p = false) ->
  has_char c (strip_all ps n s) = has_char c s.
Proof.
  intros Hps. revert s. induction n as [|n IH]; intros s; simpl; [reflexivity|].
  destruct (strip ps s) as [r|] eqn:Hs; [|reflexivity].
  destruct (strip_append ps s r Hs) as (p & Hp & ->).
  rewrite IH, has_char_append, (Hps p Hp). reflexivity.
Qed.

(** [trim] keeps the occurrences of a character that is in no white space:
    of every ASCII character that is not itself white space. *)
Lemma has_char_trim c s :
  forallb (fun p => negb (has_char c p)) white_space = true ->
  has_char c (trim s) = has_char c s.
Proof.
  intros Hws. rewrite forallb_forall in Hws.
  assert (Hps : forall p, In p white_space -> has_char c p = false)
    by (intros p Hp; apply negb_true_iff, Hws, Hp).
  unfold trim, trimEnd, trimStart.
  rewrite has_char_rev, has_char_strip_all, has_char_rev, has_char_strip_all;
    [reflexivity | exact Hps |].
  intros p Hp. apply in_map_iff in Hp as (q & <- & Hq).
  rewrite has_char_rev. exact (Hps q Hq).
Qed.

(** The bound of [trimStart] is enough: nothing is left to strip. *)
Lemma drop_prefix_length p s r :
  drop_prefix p s = Some r -> String.length s = String.length p + String.length r.
Proof.
  intros H. rewrite (drop_prefix_append p s r H).
  clear H. induction p as [|a p IH]; [reflexivity|].
  change (S (String.length (p +:+ r)) = S (String.length p + String.length r)).
  rewrite IH. reflexivity.
Qed.

Lemma strip_all_done ps n s :
  (forall p, In p ps -> p <> "") -> String.length s <= n ->
  strip ps (strip_all ps n s) = None.
Proof.
  intros Hps. revert s. induction n as [|n IH]; intros s Hlen; simpl.
  - destruct s as [|a s]; [|simpl in Hlen; lia]. clear Hlen.
    induction ps as [|p ps IHps]; [reflexivity|]. simpl.
    destruct p as [|b p]; [destruct (Hps "" (or_introl eq_refl) eq_refl)|].
    simpl. apply IHps. intros q Hq. apply Hps. right. exact Hq.
  - destruct (strip ps s) as [r|] eqn:Hs; [|exact Hs].
    apply IH. clear IH.
    assert (Hlt : String.length r < String.length s); [|lia].
    clear Hlen. induction ps as [|p ps IHps]; [discriminate|]. simpl in Hs.
    destruct (drop_prefix p s) as [r'|] eqn:Hp.
    + injection Hs as ->. apply drop_prefix_length in Hp.
      destruct p as [|b p]; [destruct (Hps "" (or_introl eq_refl) eq_refl)|].
      simpl in Hp. lia.
    + apply IHps; [|exact Hs]. intros q Hq. apply Hps. right. exact Hq.
Qed.

Lemma trimStart_done s : strip white_space (trimStart s) = None.
Proof.
  apply strip_all_done; [|reflexivity].
  intros p Hp ->. revert Hp. vm_compute. intuition discriminate.
Qed.

Lemma length_rev_app a b :
  String.length (String.rev_app a b) = String.length a + String.length b.
Proof.
  revert b. induction a as [|x a IH]; intros b; [reflexivity|].
  simpl. rewrite IH. simpl. lia.
Qed.

Lemma rev_app_rev_app a b c :
  String.rev_app (String.rev_app a b) c = String.rev_app b (a +:+ c).
Proof.
  revert b c. induction a as [|x a IH]; intros b c; [reflexivity|].
  simpl. rewrite IH. reflexivity.
Qed.

Lemma rev_rev s : String.rev (String.rev s) = s.
Proof.
  unfold String.rev. rewrite rev_app_rev_app. simpl.
  induction s as [|x s IH]; [reflexivity|].
  change (String x (s +:+ "") = String x s). rewrite IH. reflexivity.
Qed.

(** The same for [trimEnd], read backwards. *)
Lemma trimEnd_done s :
  strip (map String.rev white_space) (String.rev (trimEnd s)) = None.
Proof.
  unfold trimEnd. rewrite rev_rev. apply strip_all_done.
  - intros p Hp ->. revert Hp. vm_compute. intuition discriminate.
  - unfold String.rev. rewrite length_rev_app. simpl. lia.
Qed.

Lemma find_append {A} (f : A -> bool) (l1 l2 : list A) :
  List.find f (l1 ++ l2)
  = match List.find f l1 with Some x => Some x | None => List.find f l2 end.
Proof. induction l1 as [|a l1 IH]; simpl; [reflexivity|]. destruct (f a); auto. Qed.

Lemma filter_none {A} (f g : A -> bool) (l : list A) :
  (forall x, g x = true -> f x = false) ->
  Forall (fun x => g x = true) l -> List.filter f l = [].
Proof.
  intros Hfg Hall. induction Hall as [|x l Hx _ IH]; [reflexivity|].
  simpl. rewrite (Hfg x Hx). exact IH.
Qed.

Lemma filter_nil_false {A} (f : A -> bool) (l : list A) x :
  List.filter f l = [] -> In x l -> f x = false.
Proof.
  intros Hnil Hin. destruct (f x) eqn:Hfx; [|reflexivity].
  assert (Hx : In x (List.filter f l)) by (apply filter_In; split; assumption).
  rewrite Hnil in Hx. destruct Hx.
Qed.

End Basics.

(** *** The environment resolver *)

Section EnvProperties.
Import Env.

Implicit Types (env envVars : gmap string string) (v : string).

Lemma mentions_iff v (l : list string) : existsb (String.eqb v) l = true <-> In v l.
Proof.
  rewrite existsb_exists. split.
  - intros (x & Hin & Heq). apply String.eqb_eq in Heq. subst x. exact Hin.
  - intros Hin. exists v. split; [exact Hin | apply String.eqb_refl].
Qed.

(** The keys [validateEnvironment] is meant for, and the keys that read
    otherwise in the code. *)
Example keys :
  forallb ordinary_key ["PRIVATE_KEY"; "XMTP_DB_ENCRYPTION_KEY"; "XMTP_ENV"] = true
  /\ map ordinary_key [""; "toString"; "__proto__"; "A=B"] = [false; false; false; false]
  /\ is_missing ∅ "XMTP_ENV" = true
  /\ is_missing ∅ "toString" = false
  /\ is_missing {[ "toString" := "" ]} "toString" = true
  /\ setenv ∅ "" (Str "x") = ∅
  /\ setenv ∅ "K" (Str (utf8 [97; 0; 98])) = {[ "K" := "a" ]}
  /\ put ∅ "__proto__" "x" = ∅
  /\ put ∅ "constructor" "x" = {[ "constructor" := "x" ]}.
Proof. repeat split; vm_compute; reflexivity. Qed.

(** On an ordinary key, reading is the lookup of the variable. *)
Lemma ordinary_key_spec v :
  ordinary_key v = true -> v <> "" /\ inherited v = false.
Proof.
  unfold ordinary_key, truthy_string. intros H.
  apply andb_true_iff in H as [H _]. apply andb_true_iff in H as [H _].
  apply andb_true_iff in H as [Hne Hinh].
  apply negb_true_iff in Hne, Hinh. apply String.eqb_neq in Hne. split; assumption.
Qed.

Lemma get_not_inherited (o : gmap string string) v :
  inherited v = false -> get o v = Str <$> o !! v.
Proof. intros H. unfold get. rewrite H. destruct (o !! v); reflexivity. Qed.

Lemma truthy_Str (o : option string) : truthy (Str <$> o) = truthy_opt_string o.
Proof. destruct o; reflexivity. Qed.

Lemma getenv_ordinary env v : ordinary_key v = true -> getenv env v = Str <$> env !! v.
Proof.
  intros H. apply ordinary_key_spec in H as [Hne Hinh].
  unfold getenv. apply String.eqb_neq in Hne. rewrite Hne.
  apply get_not_inherited, Hinh.
Qed.

Lemma is_missing_ordinary env v :
  ordinary_key v = true -> is_missing env v = negb (truthy_opt_string (env !! v)).
Proof. intros H. unfold is_missing. rewrite (getenv_ordinary _ _ H), truthy_Str. reflexivity. Qed.

Lemma c_string_truthy s : truthy_string (c_string s) = true -> truthy_string s = true.
Proof. destruct s; [discriminate | reflexivity]. Qed.

(** What [process.env[v0] = envVars[v0]] writes, and where. *)
Lemma backfill_one_lookup envVars env v0 v :
  backfill_one envVars env v0 !! v
  = if String.eqb v v0 && truthy (get envVars v) && negb (String.eqb v "")
    then (fun x => c_string (String_of x)) <$> get envVars v else env !! v.
Proof.
  unfold backfill_one, setenv.
  destruct (get envVars v0) as [x|] eqn:Hx.
  - destruct (String.eqb_spec v v0) as [->|Hne].
    + rewrite Hx. destruct (truthy (Some x)); [|reflexivity].
      destruct (String.eqb v0 ""); [reflexivity | apply lookup_insert_eq].
    + destruct (truthy (Some x)); [|reflexivity].
      destruct (String.eqb v0 ""); [reflexivity|].
      apply lookup_insert_ne. congruence.
  - destruct (String.eqb_spec v v0) as [->|Hne]; [rewrite Hx|]; reflexivity.
Qed.

Lemma backfill_lookup envVars (missing : list string) env v :
  backfill envVars missing env !! v
  = if existsb (String.eqb v) missing && truthy (get envVars v) && negb (String.eqb v "")
    then (fun x => c_string (String_of x)) <$> get envVars v else env !! v.
Proof.
  unfold backfill. revert env.
  induction missing as [|v0 rest IH]; intros env; simpl; [reflexivity|].
  rewrite IH, backfill_one_lookup.
  destruct (existsb (String.eqb v) rest), (String.eqb v v0),
    (truthy (get envVars v)), (String.eqb v ""); reflexivity.
Qed.

Lemma filter_mentions (f : string -> bool) (vars : list string) v :
  In v vars -> existsb (String.eqb v) (List.filter f vars) = f v.
Proof.
  intros Hin. destruct (f v) eqn:Hv.
  - apply mentions_iff. apply filter_In. split; assumption.
  - destruct (existsb _ _) eqn:Hex; [|reflexivity].
    apply mentions_iff in Hex. apply filter_In in Hex as [_ Hex]. congruence.
Qed.

(** The environment table after the fallback. *)
Lemma validateEnvironment_env_after vars env file :
  snd (fst (validateEnvironment vars env file))
  = match file with
    | Dotenv content =>
        backfill (parse_dotenv content) (List.filter (is_missing env) vars) env
    | _ => env
    end.
Proof.
  unfold validateEnvironment.
  destruct (List.filter (is_missing env) vars) as [|v0 missing] eqn:Hmissing.
  - simpl. destruct file; reflexivity.
  - cbn [length Nat.eqb negb].
    destruct file as [|e|content]; cbn iota;
      match goal with
      | |- context [Nat.eqb (length ?l) 0] => destruct (Nat.eqb (length l) 0)
      end; reflexivity.
Qed.

(** On an ordinary required key the table holds, after the fallback, what
    the environment keeps of the value of the file, where the variable was
    unset or empty and the file gives a non-empty value. *)
Lemma validateEnvironment_env vars env file v :
  In v vars -> ordinary_key v = true ->
  snd (fst (validateEnvironment vars env file)) !! v
  = if is_missing env v
       && truthy_opt_string (match file with
                             | Dotenv content => parse_dotenv content !! v
                             | _ => None
                             end)
    then file_value file v else env !! v.
Proof.
  intros Hin Hord. rewrite validateEnvironment_env_after.
  destruct file as [|e|content]; simpl; try (rewrite andb_false_r; reflexivity).
  destruct (ordinary_key_spec v Hord) as [Hne Hinh].
  rewrite backfill_lookup, (filter_mentions _ _ _ Hin), (get_not_inherited _ _ Hinh),
    truthy_Str.
  apply String.eqb_neq in Hne. rewrite Hne, andb_true_r.
  destruct (is_missing env v && truthy_opt_string (parse_dotenv content !! v));
    [|reflexivity].
  destruct (parse_dotenv content !! v); reflexivity.
Qed.

(** A value of the file of which the environment keeps something was not
    empty. *)
Lemma file_value_truthy file v :
  truthy_opt_string (file_value file v) = true ->
  truthy_opt_string (match file with
                     | Dotenv content => parse_dotenv content !! v
                     | _ => None
                     end) = true.
Proof.
  destruct file as [|e|content]; simpl; try discriminate.
  destruct (parse_dotenv content !! v) as [x|]; simpl; [apply c_string_truthy | discriminate].
Qed.

(** Nothing is kept of an empty value. *)
Lemma file_value_falsy file v :
  truthy_opt_string (match file with
                     | Dotenv content => parse_dotenv content !! v
                     | _ => None
                     end) = false ->
  truthy_opt_string (file_value file v) = false.
Proof.
  intros H. destruct (truthy_opt_string (file_value file v)) eqn:Hf; [|reflexivity].
  apply file_value_truthy in Hf. congruence.
Qed.

Lemma collect_lookup_acc vars env (acc : gmap string value) v :
  v <> "__proto__" ->
  foldl (fun acc key => match getenv env key with
                        | Some x => if String.eqb key "__proto__" then acc
                                    else <[key := x]> acc
                        | None => acc
                        end) acc vars !! v
  = if existsb (String.eqb v) vars
    then match getenv env v with Some x => Some x | None => acc !! v end
    else acc !! v.
Proof.
  intros Hv. revert acc. induction vars as [|k rest IH]; intros acc; simpl; [reflexivity|].
  rewrite IH. destruct (String.eqb_spec v k) as [<-|Hne]; simpl.
  - apply String.eqb_neq in Hv. rewrite Hv.
    destruct (getenv env v) as [x|] eqn:Hk.
    + rewrite lookup_insert_eq. destruct (existsb (String.eqb v) rest); reflexivity.
    + destruct (existsb (String.eqb v) rest); reflexivity.
  - destruct (getenv env k) as [x|] eqn:Hk; [|reflexivity].
    destruct (String.eqb k "__proto__"); [reflexivity|].
    rewrite lookup_insert_ne by congruence. reflexivity.
Qed.

Lemma collect_lookup vars env v :
  In v vars -> ordinary_key v = true -> collect vars env !! v = Str <$> env !! v.
Proof.
  intros Hin Hord. unfold collect. rewrite collect_lookup_acc.
  - apply mentions_iff in Hin. rewrite Hin, (getenv_ordinary _ _ Hord).
    destruct (env !! v); [reflexivity | apply lookup_empty].
  - intros ->. apply ordinary_key_spec in Hord as [_ Hinh]. discriminate Hinh.
Qed.

(** Among ordinary keys, the keys the code finds missing after the fallback
    are the keys that were unset or empty and got no non-empty value from
    the file. *)
Lemma stillMissing_eq vars env file :
  Forall (fun v => ordinary_key v = true) vars ->
  List.filter (is_missing (snd (fst (validateEnvironment vars env file)))) vars
  = still_missing vars env file.
Proof.
  intros Hord. rewrite List.Forall_forall in Hord.
  unfold still_missing. apply filter_ext_in. intros v Hin.
  rewrite (is_missing_ordinary _ _ (Hord v Hin)),
    (validateEnvironment_env _ _ _ _ Hin (Hord v Hin)).
  rewrite (is_missing_ordinary env _ (Hord v Hin)).
  destruct (truthy_opt_string (env !! v)) eqn:He; simpl; [rewrite He; reflexivity|].
  match goal with
  | |- context [if truthy_opt_string ?raw then _ else _] =>
      destruct (truthy_opt_string raw) eqn:Hraw
  end.
  - reflexivity.
  - rewrite He, (file_value_falsy _ _ Hraw). reflexivity.
Qed.

Lemma validateEnvironment_completion vars env file :
  let r := validateEnvironment vars env file in
  let stillMissing := List.filter (is_missing (snd (fst r))) vars in
  (stillMissing = [] -> snd r = Returns (collect vars (snd (fst r))))
  /\ (stillMissing <> [] ->
      snd r = Exits 1
      /\ last (fst (fst r)) = Some (Err ["Missing env vars:"; join ", " stillMissing])).
Proof.
  unfold validateEnvironment.
  destruct (List.filter (is_missing env) vars) as [|v0 missing] eqn:Hmissing.
  - simpl. rewrite Hmissing. split; [reflexivity | congruence].
  - cbn [length Nat.eqb negb].
    set (found := match file with
                  | NoDotenv => ([], env)
                  | DotenvThrows e => ([Err [to_String e]], env)
                  | Dotenv content =>
                      ([], backfill (parse_dotenv content) (v0 :: missing) env)
                  end).
    destruct found as [out env1].
    destruct (List.filter (is_missing env1) vars) as [|v1 still] eqn:Hstill.
    + simpl. rewrite Hstill. split; [reflexivity | congruence].
    + simpl. rewrite Hstill. split; [congruence|]. intros _.
      split; [reflexivity | apply last_snoc].
Qed.

(** The mapping [validateEnvironment] returns for ordinary keys. *)
Lemma validateEnvironment_values vars env file :
  Forall (fun v => ordinary_key v = true) vars ->
  still_missing vars env file = [] ->
  exists m, snd (validateEnvironment vars env file) = Returns m
    /\ forall v, In v vars ->
         exists x, m !! v = Some (Str x) /\ x <> ""
           /\ (if is_missing env v then file_value file v = Some x
               else env !! v = Some x).
Proof.
  intros Hord Hnil.
  pose proof (validateEnvironment_completion vars env file) as [Hret _].
  cbv zeta in Hret. rewrite (stillMissing_eq _ _ _ Hord) in Hret.
  exists (collect vars (snd (fst (validateEnvironment vars env file)))).
  split; [exact (Hret Hnil)|].
  rewrite List.Forall_forall in Hord.
  intros v Hin. rewrite (collect_lookup _ _ _ Hin (Hord v Hin)).
  rewrite (validateEnvironment_env _ _ _ _ Hin (Hord v Hin)).
  pose proof (filter_nil_false _ vars v Hnil Hin) as Hv. simpl in Hv.
  destruct (is_missing env v) eqn:Hmiss; simpl in *.
  - apply negb_false_iff in Hv. rewrite (file_value_truthy _ _ Hv).
    destruct (file_value file v) as [x|]; [|discriminate].
    exists x. repeat split. intros ->. discriminate.
  - rewrite (is_missing_ordinary _ _ (Hord v Hin)) in Hmiss.
    apply negb_false_iff in Hmiss.
    destruct (env !! v) as [x|]; [|discriminate].
    exists x. repeat split. intros ->. discriminate.
Qed.

Lemma validateEnvironment_exits vars env file :
  Forall (fun v => ordinary_key v = true) vars ->
  still_missing vars env file <> [] ->
  snd (validateEnvironment vars env file) = Exits 1
  /\ last (fst (fst (validateEnvironment vars env file)))
     = Some (Err ["Missing env vars:"; join ", " (still_missing vars env file)]).
Proof.
  intros Hord Hne.
  pose proof (validateEnvironment_completion vars env file) as [_ Hexit].
  cbv zeta in Hexit. rewrite (stillMissing_eq _ _ _ Hord) in Hexit. exact (Hexit Hne).
Qed.

(** C9, as amended. The required keys are ordinary: possible names of
    environment variables that are no property of [Object.prototype] (under
    such a name [process.env] reads the inherited property, which is never
    missing). Such a key is missing when it is unset or set to the empty
    string in the process environment and the fallback file gives it no
    non-empty value, where a value counts as the environment holds it: up to
    its first character of code 0. If some required key is missing,
    [validateEnvironment] ends in [process.exit(1)] after printing exactly
    the missing keys; if none is, it returns a mapping that gives every
    required key its non-empty value: the one of the environment, or else
    the one of the file. *)
Theorem validateEnvironment_spec vars env file :
  Forall (fun v => ordinary_key v = true) vars ->
  let r := validateEnvironment vars env file in
  let still := still_missing vars env file in
  (forall v, In v vars -> is_missing env v = negb (truthy_opt_string (env !! v)))
  /\ (still <> [] ->
      snd r = Exits 1
      /\ last (fst (fst r)) = Some (Err ["Missing env vars:"; join ", " still]))
  /\ (still = [] ->
      exists m, snd r = Returns m
        /\ forall v, In v vars ->
             exists x, m !! v = Some (Str x) /\ x <> ""
               /\ (if is_missing env v then file_value file v = Some x
                   else env !! v = Some x)).
Proof.
  intros Hord r still. split; [|split].
  - intros v Hin. apply is_missing_ordinary.
    rewrite List.Forall_forall in Hord. exact (Hord v Hin).
  - exact (validateEnvironment_exits vars env file Hord).
  - exact (validateEnvironment_values vars env file Hord).
Qed.

End EnvProperties.
(** *** The XMTP service *)

Section ServiceProperties.
Context {viem : Viem} {u8 : Uint8arrays} {xmtp : Xmtp}.

Implicit Types (st : XMTPService * World) (t : list event) (e : js_exn).

(** **** Running the monad *)

Lemma bind_inr {A B} (m : M A) (k : A -> M B) st a st1 t1 :
  m st = (inr a, st1, t1) ->
  bind m k st = (fst (fst (k a st1)), snd (fst (k a st1)), t1 ++ snd (k a st1)).
Proof. intros H. unfold bind. rewrite H. destruct (k a st1) as [[r s2] t2]. reflexivity. Qed.

Lemma bind_inr_inv {A B} (m : M A) (k : A -> M B) st b st2 t :
  bind m k st = (inr b, st2, t) ->
  exists a st1 t1 t2, m st = (inr a, st1, t1) /\ k a st1 = (inr b, st2, t2) /\ t = t1 ++ t2.
Proof.
  unfold bind. destruct (m st) as [[[e|a] st1] t1]; [discriminate|].
  destruct (k a st1) as [[r s] t2] eqn:Hk. intros [= -> -> <-].
  exists a, st1, t1, t2. auto.
Qed.

Lemma bind_outcome_inr {A B} (m : M A) (k : A -> M B) st b :
  outcome (bind m k) st = inr b -> exists a st1, outcome (k a) st1 = inr b.
Proof.
  unfold outcome, bind. destruct (m st) as [[[e|a] st1] t1]; simpl; [discriminate|].
  intros H. exists a, st1. destruct (k a st1) as [[r s] t]. exact H.
Qed.

Lemma bind_outcome_inl {A B} (m : M A) (k : A -> M B) st e :
  outcome (bind m k) st = inl e ->
  outcome m st = inl e
  \/ exists a, outcome m st = inr a /\ outcome (k a) (final m st) = inl e.
Proof.
  unfold outcome, final, bind. destruct (m st) as [[[e0|a] st1] t1]; simpl.
  - intros [= ->]. left. reflexivity.
  - intros H. right. exists a. split; [reflexivity|].
    destruct (k a st1) as [[r s] t]. exact H.
Qed.

(** **** Client life cycle *)

Lemma initializeClient_cached st c :
  client (fst st) = Some c -> initializeClient st = (inr tt, st, []).
Proof.
  intros H. unfold initializeClient, bind, this_client. rewrite H. reflexivity.
Qed.

(** A first successful call constructs the client once and caches it. *)
Lemma initializeClient_fresh_ok st st1 t1 :
  client (fst st) = None ->
  initializeClient st = (inr tt, st1, t1) ->
  exists c, client (fst st1) = Some c
            /\ config (fst st1) = config (fst st)
            /\ List.filter is_create t1 = firstn 1 t1
            /\ length t1 = 2.
Proof.
  intros Hnone H. destruct st as [svc w]. simpl in Hnone.
  unfold initializeClient, bind, this_client, try_catch, this_config, lift,
    call, set_client, emit, throw in H.
  simpl in H. rewrite Hnone in H. simpl in H.
  destruct (createSigner (privateKey (config svc))) as [e|signer]; simpl in H;
    [discriminate|].
  destruct (getEncryptionKeyFromHex (encryptionKey (config svc))) as [e|kb];
    simpl in H; [discriminate|].
  destruct (Client_create _ _ w) as [[e|c] w1]; simpl in H; [discriminate|].
  injection H as <- <-. exists c. repeat split.
Qed.

Lemma initializeClient_ok_client st st1 t1 :
  initializeClient st = (inr tt, st1, t1) ->
  exists c, client (fst st1) = Some c /\ config (fst st1) = config (fst st).
Proof.
  intros H. destruct (client (fst st)) as [c|] eqn:Hc.
  - rewrite (initializeClient_cached st c Hc) in H. injection H as <- _.
    exists c. split; [exact Hc | reflexivity].
  - destruct (initializeClient_fresh_ok st st1 t1 Hc H) as (c & H1 & H2 & _).
    exists c. split; assumption.
Qed.

Lemma initializeClient_times_cached n st c :
  client (fst st) = Some c -> initializeClient_times n st = (inr tt, st, []).
Proof.
  intros H. induction n as [|n IH]; [reflexivity|].
  simpl. rewrite (bind_inr _ _ st tt st [] (initializeClient_cached st c H)).
  rewrite IH. reflexivity.
Qed.

Lemma initializeClient_trace st :
  Forall (fun ev => is_init ev = true) (trace initializeClient st).
Proof.
  destruct st as [svc w].
  unfold trace, initializeClient, bind, this_client, try_catch, this_config, lift,
    call, set_client, emit, throw. simpl.
  destruct (client svc); simpl; [constructor|].
  destruct (createSigner (privateKey (config svc))); simpl; [repeat constructor|].
  destruct (getEncryptionKeyFromHex (encryptionKey (config svc))); simpl;
    [repeat constructor|].
  destruct (Client_create _ _ w) as [[e|c] w1]; simpl; repeat constructor.
Qed.

Lemma initializeClient_ok_trace st st1 t1 :
  initializeClient st = (inr tt, st1, t1) -> Forall (fun ev => is_init ev = true) t1.
Proof.
  intros H. pose proof (initializeClient_trace st) as Ht.
  unfold trace in Ht. rewrite H in Ht. exact Ht.
Qed.

Lemma initializeClient_throws st e :
  outcome initializeClient st = inl e ->
  exists cause, e = new_Error ("Failed to initialize XMTP client: " +:+ cause).
Proof.
  destruct st as [svc w].
  unfold outcome, initializeClient, bind, this_client, try_catch, this_config, lift,
    call, set_client, emit, throw. simpl.
  destruct (client svc); simpl; [discriminate|].
  destruct (createSigner (privateKey (config svc))) as [e0|signer]; simpl;
    [intros [= <-]; eexists; reflexivity|].
  destruct (getEncryptionKeyFromHex (encryptionKey (config svc))) as [e0|kb]; simpl;
    [intros [= <-]; eexists; reflexivity|].
  destruct (Client_create _ _ w) as [[e0|c] w1]; simpl;
    [intros [= <-]; eexists; reflexivity | discriminate].
Qed.

Lemma require_client_cached st c :
  client (fst st) = Some c -> require_client st = (inr c, st, []).
Proof. intros H. unfold require_client, bind, this_client. rewrite H. reflexivity. Qed.

(** **** The scan of the conversations *)

Lemma scan_members_readonly c addr ms st :
  exists t, scan_members c addr ms st = (outcome (scan_members c addr ms) st, st, t)
            /\ Forall (fun ev => is_scan ev = true) t.
Proof.
  induction ms as [|m rest IH]; simpl.
  - exists []. split; [reflexivity | constructor].
  - unfold outcome, bind, query. simpl.
    destruct (preferences_inboxStateFromInboxIds c [inboxId m] (snd st)) as [e|ms0].
    + exists [CallInboxState [inboxId m]]. split; [reflexivity | repeat constructor].
    + destruct (state_matches addr ms0).
      * exists [CallInboxState [inboxId m]]. split; [reflexivity | repeat constructor].
      * destruct IH as (t & Ht & Hall). rewrite Ht. simpl.
        exists (CallInboxState [inboxId m] :: t). split; [reflexivity|].
        constructor; [reflexivity | exact Hall].
Qed.

Lemma scan_conversations_readonly c addr convs st :
  exists t, scan_conversations c addr convs st
            = (outcome (scan_conversations c addr convs) st, st, t)
            /\ Forall (fun ev => is_scan ev = true) t.
Proof.
  induction convs as [|conv rest IH]; simpl.
  - exists []. split; [reflexivity | constructor].
  - destruct (scan_members_readonly c addr (members conv) st) as (t1 & H1 & Hall1).
    unfold outcome, bind. rewrite H1.
    destruct (outcome (scan_members c addr (members conv)) st) as [e|[inbox|]]; simpl.
    + exists t1. split; [reflexivity | exact Hall1].
    + exists (t1 ++ []). split; [reflexivity|]. rewrite app_nil_r. exact Hall1.
    + destruct IH as (t2 & H2 & Hall2). rewrite H2. simpl.
      exists (t1 ++ t2). split; [reflexivity|]. apply Forall_app. split; assumption.
Qed.

(** When every inbox state can be read, the scan of a member list returns the
    inbox of the first member that carries the address. *)
Lemma scan_members_find c addr ms st :
  (forall m, In m ms -> member_readable c (snd st) m) ->
  outcome (scan_members c addr ms) st
  = inr (inboxId <$> List.find (member_matches c (snd st) addr) ms).
Proof.
  induction ms as [|m rest IH]; intros Hread; [reflexivity|].
  destruct (Hread m (or_introl eq_refl)) as [ms0 Hm].
  simpl. unfold outcome, bind, query, member_matches. simpl. rewrite Hm.
  destruct (state_matches addr ms0); [reflexivity|].
  assert (Hrest : forall m', In m' rest -> member_readable c (snd st) m')
    by (intros m' Hin; apply Hread; right; exact Hin).
  specialize (IH Hrest). unfold outcome, member_matches in IH.
  destruct (scan_members c addr rest st) as [[r s] t]. simpl in *.
  rewrite IH. reflexivity.
Qed.

Lemma scan_conversations_find c addr convs st :
  (forall conv m, In conv convs -> In m (members conv) -> member_readable c (snd st) m) ->
  outcome (scan_conversations c addr convs) st
  = inr (inboxId <$> List.find (member_matches c (snd st) addr) (flat_map members convs)).
Proof.
  induction convs as [|conv rest IH]; intros Hread; [reflexivity|].
  simpl.
  assert (H1 := scan_members_find c addr (members conv) st
                  (fun m Hin => Hread conv m (or_introl eq_refl) Hin)).
  destruct (scan_members_readonly c addr (members conv) st) as (t1 & Hrun & _).
  rewrite H1 in Hrun. unfold outcome, bind. rewrite Hrun.
  rewrite find_append.
  destruct (List.find (member_matches c (snd st) addr) (members conv)) as [m|]; simpl.
  - reflexivity.
  - assert (Hrest : forall conv' m, In conv' rest -> In m (members conv') ->
                                    member_readable c (snd st) m)
      by (intros conv' m Hc Hm; apply (Hread conv' m); [right; exact Hc | exact Hm]).
    specialize (IH Hrest). unfold outcome in IH.
    destruct (scan_conversations c addr rest st) as [[r s] t]. simpl in *.
    rewrite IH. reflexivity.
Qed.





Lemma member_matches_iff c w addr m :
  member_matches c w addr m = true <-> carries_address c w addr m.
Proof.
  unfold member_matches, carries_address, state_matches, matches_address. split.
  - destruct (preferences_inboxStateFromInboxIds c [inboxId m] w) as [e|[|st0 others]];
      try discriminate.
    destruct (identifiers st0) as [ids|] eqn:Hids; try discriminate.
    intros H. apply existsb_exists in H as (ident & Hin & Heq).
    apply String.eqb_eq in Heq. exists st0, others, ids, ident. auto.
  - intros (st0 & others & ids & ident & -> & -> & Hin & Heq).
    apply existsb_exists. exists ident. split; [exact Hin|].
    apply String.eqb_eq. exact Heq.
Qed.

Lemma getInboxIdFromAddress_cached addr st c :
  client (fst st) = Some c ->
  exists t, getInboxIdFromAddress addr st = (inr (resolution c addr st), st, t)
            /\ Forall (fun ev => is_scan ev = true) t.
Proof.
  intros Hc. unfold getInboxIdFromAddress, resolution, try_catch.
  rewrite (bind_inr _ _ st tt st [] (initializeClient_cached st c Hc)). simpl.
  rewrite (bind_inr _ _ st c st [] (require_client_cached st c Hc)). simpl.
  unfold bind, query.
  destruct (conversations_list c (snd st)) as [e|convs]; simpl.
  - eexists. split; [reflexivity | repeat constructor].
  - destruct (scan_conversations_readonly c addr convs st) as (t & Hrun & Hall).
    rewrite Hrun.
    destruct (outcome (scan_conversations c addr convs) st) as [e|found]; simpl.
    + eexists. split; [reflexivity|]. constructor; [reflexivity|].
      apply Forall_app. split; [exact Hall | repeat constructor].
    + eexists. split; [reflexivity|]. constructor; [reflexivity | exact Hall].
Qed.

Lemma getInboxIdFromAddress_total addr st :
  exists r, outcome (getInboxIdFromAddress addr) st = inr r.
Proof.
  unfold outcome, getInboxIdFromAddress, try_catch.
  match goal with
  | |- context [match ?b st with _ => _ end] => destruct (b st) as [[[e|r] s] t]
  end; simpl; eexists; reflexivity.
Qed.

(** The scan finds the inbox that carries the address when every inbox
    state can be read and no other inbox carries it. *)
Lemma resolution_found c addr st convs conv m :
  conversations_list c (snd st) = inr convs ->
  (forall cv mb, In cv convs -> In mb (members cv) -> member_readable c (snd st) mb) ->
  In conv convs -> In m (members conv) ->
  carries_address c (snd st) addr m ->
  (forall cv mb, In cv convs -> In mb (members cv) ->
                 carries_address c (snd st) addr mb -> inboxId mb = inboxId m) ->
  resolution c addr st = Some (inboxId m).
Proof.
  intros Hlist Hread Hconv Hm Hcarries Huniq. unfold resolution. rewrite Hlist.
  rewrite (scan_conversations_find c addr convs st Hread).
  destruct (List.find (member_matches c (snd st) addr) (flat_map members convs))
    as [m'|] eqn:Hfind; simpl.
  - apply find_some in Hfind as [Hin Hmatch].
    apply in_flat_map in Hin as (cv & Hcv & Hmb).
    f_equal. apply (Huniq cv m' Hcv Hmb). apply member_matches_iff. exact Hmatch.
  - exfalso. apply member_matches_iff in Hcarries.
    rewrite (find_none _ _ Hfind m) in Hcarries; [discriminate|].
    apply in_flat_map. exists conv. split; assumption.
Qed.


(** **** The search for an existing conversation *)

Lemma scan_is_lookup ev : is_scan ev = true -> is_lookup ev = true.
Proof. unfold is_lookup. intros ->. reflexivity. Qed.

Lemma lookup_conversation_unresolved addr st c :
  client (fst st) = Some c ->
  resolution c addr st = None ->
  exists t, lookup_conversation c addr st = (inr None, st, t)
            /\ Forall (fun ev => is_scan ev = true) t.
Proof.
  intros Hc Hres. destruct (getInboxIdFromAddress_cached addr st c Hc) as (t & Hrun & Hall).
  rewrite Hres in Hrun. exists (t ++ []). split; [|rewrite app_nil_r; exact Hall].
  unfold lookup_conversation. rewrite (bind_inr _ _ _ _ _ _ Hrun). reflexivity.
Qed.

Lemma lookup_conversation_cached addr st c :
  client (fst st) = Some c ->
  exists t, lookup_conversation c addr st = (lookup_result c addr st, st, t)
            /\ Forall (fun ev => is_lookup ev = true) t.
Proof.
  intros Hc. destruct (getInboxIdFromAddress_cached addr st c Hc) as (t & Hrun & Hall).
  apply (List.Forall_impl (fun ev => is_lookup ev = true) scan_is_lookup) in Hall.
  unfold lookup_conversation, lookup_result.
  rewrite (bind_inr _ _ _ _ _ _ Hrun).
  destruct (resolution c addr st) as [inbox|]; simpl.
  - destruct (truthy_string inbox); simpl.
    + eexists. split; [reflexivity|]. apply Forall_app. split; [exact Hall|].
      repeat constructor.
    + eexists. split; [reflexivity|]. rewrite app_nil_r. exact Hall.
  - eexists. split; [reflexivity|]. rewrite app_nil_r. exact Hall.
Qed.

Lemma lookup_conversation_none addr st c :
  client (fst st) = Some c ->
  outcome (lookup_conversation c addr) st = inr None ->
  exists t, lookup_conversation c addr st = (inr None, st, t)
            /\ Forall (fun ev => is_lookup ev = true) t.
Proof.
  intros Hc Hout. destruct (lookup_conversation_cached addr st c Hc) as (t & Hrun & Hall).
  unfold outcome in Hout. rewrite Hrun in Hout. simpl in Hout. rewrite Hout in Hrun.
  exists t. split; assumption.
Qed.

(** **** The steps of [sendMessage] *)

Lemma sendMessage_returns addr msg st :
  outcome (sendMessage addr msg) st
  = match outcome (sendMessage_try addr msg) st with
    | inl e => inr (failure (errorMessage_of e))
    | inr r => inr r
    end.
Proof.
  unfold outcome, sendMessage, try_catch.
  destruct (sendMessage_try addr msg st) as [[[e|r] st1] t1]; reflexivity.
Qed.

Lemma sendMessage_trace addr msg st :
  trace (sendMessage addr msg) st
  = trace (sendMessage_try addr msg) st
    ++ match outcome (sendMessage_try addr msg) st with
       | inl e => [Console (Err ["Error sending message to " +:+ addr +:+ ":";
                                 errorMessage_of e])]
       | inr _ => []
       end.
Proof.
  unfold outcome, trace, sendMessage, try_catch.
  destruct (sendMessage_try addr msg st) as [[[e|r] st1] t1]; simpl;
    [reflexivity | rewrite app_nil_r; reflexivity].
Qed.

Lemma sendMessage_try_synced addr msg st st1 t1 c w2 :
  initializeClient st = (inr tt, st1, t1) ->
  client (fst st1) = Some c ->
  conversations_sync c (snd st1) = (inr tt, w2) ->
  sendMessage_try addr msg st
  = (outcome (relay c addr msg) (fst st1, w2),
     final (relay c addr msg) (fst st1, w2),
     t1 ++ CallSync :: trace (relay c addr msg) (fst st1, w2)).
Proof.
  intros Hinit Hc Hsync. unfold sendMessage_try, bind.
  rewrite Hinit, (require_client_cached st1 c Hc). unfold call. rewrite Hsync. simpl.
  unfold outcome, final, trace.
  destruct (relay c addr msg (fst st1, w2)) as [[r s] t]. reflexivity.
Qed.

Lemma sendMessage_synced addr msg st st1 t1 c w2 :
  initializeClient st = (inr tt, st1, t1) ->
  client (fst st1) = Some c ->
  conversations_sync c (snd st1) = (inr tt, w2) ->
  outcome (sendMessage addr msg) st
  = match outcome (relay c addr msg) (fst st1, w2) with
    | inl e => inr (failure (errorMessage_of e))
    | inr r => inr r
    end
  /\ trace (sendMessage addr msg) st
     = t1 ++ CallSync :: trace (relay c addr msg) (fst st1, w2)
       ++ match outcome (relay c addr msg) (fst st1, w2) with
          | inl e => [Console (Err ["Error sending message to " +:+ addr +:+ ":";
                                    errorMessage_of e])]
          | inr _ => []
          end.
Proof.
  intros Hinit Hc Hsync.
  pose proof (sendMessage_try_synced addr msg st st1 t1 c w2 Hinit Hc Hsync) as Htry.
  rewrite sendMessage_returns, sendMessage_trace. unfold outcome at 1 3, trace at 1.
  rewrite Htry. simpl. split; [reflexivity|].
  rewrite <- app_assoc. reflexivity.
Qed.

Lemma deliver_run addr msg conv st :
  deliver addr msg conv st
  = match send conv msg (snd st) with
    | (inl e, w) => (inl e, (fst st, w), [CallSend conv msg])
    | (inr sent, w) =>
        (inr (delivered sent), (fst st, w),
         [CallSend conv msg; Console (Log ["✓ Message sent to " +:+ addr])])
    end.
Proof.
  unfold deliver, bind, call, emit, ret.
  destruct (send conv msg (snd st)) as [[e|sent] w]; reflexivity.
Qed.

Lemma deliver_success addr msg conv st r :
  outcome (deliver addr msg conv) st = inr r -> exists sent, r = delivered sent.
Proof.
  unfold outcome. rewrite deliver_run.
  destruct (send conv msg (snd st)) as [[e|sent] w]; simpl; [discriminate|].
  intros [= <-]. exists sent. reflexivity.
Qed.

Lemma deliver_throws addr msg conv st e :
  outcome (deliver addr msg conv) st = inl e -> fst (send conv msg (snd st)) = inl e.
Proof.
  unfold outcome. rewrite deliver_run.
  destruct (send conv msg (snd st)) as [[e0|sent] w]; simpl; [|discriminate].
  intros [= <-]. reflexivity.
Qed.

Lemma create_conversation_run c addr st :
  let network := environment (config (fst st)) in
  let ask := CallCanMessage (capability_query addr) network in
  create_conversation c addr st
  = match Client_canMessage (capability_query addr) network (snd st) with
    | inl e => (inl e, st, [ask])
    | inr canReceive =>
        if truthy_opt_bool (canReceive !! toLowerCase addr) then
          match conversations_newDm c addr (snd st) with
          | (inr conv, w) => (inr conv, (fst st, w), [ask; CallNewDm addr])
          | (inl dmError, w) =>
              (inl (new_Error (creation_failure addr dmError)), (fst st, w),
               [ask; CallNewDm addr])
          end
        else
          (inl (new_Error ("Address " +:+ addr +:+ " cannot receive XMTP messages")),
           st, [ask])
    end.
Proof.
  unfold create_conversation, capability_query, creation_failure,
    bind, this_config, query, try_catch, call, throw. simpl.
  destruct (Client_canMessage _ _ (snd st)) as [e|canReceive]; simpl; [reflexivity|].
  destruct (truthy_opt_bool (canReceive !! toLowerCase addr)); simpl; [|reflexivity].
  destruct (conversations_newDm c addr (snd st)) as [[e|conv] w]; reflexivity.
Qed.

Lemma create_conversation_throws c addr st e :
  outcome (create_conversation c addr) st = inl e ->
  own_error addr e \/ exists ids network w, Client_canMessage ids network w = inl e.
Proof.
  unfold outcome. rewrite create_conversation_run. cbv zeta.
  destruct (Client_canMessage _ _ (snd st)) as [e0|canReceive] eqn:Hcan; simpl.
  - intros [= <-]. right. eauto.
  - destruct (truthy_opt_bool (canReceive !! toLowerCase addr)).
    + destruct (conversations_newDm c addr (snd st)) as [[e0|conv] w]; simpl;
        [|discriminate].
      intros [= <-]. left. right. right. eexists. reflexivity.
    + simpl. intros [= <-]. left. right. left. reflexivity.
Qed.

Lemma create_and_deliver_run c addr msg st :
  let network := environment (config (fst st)) in
  let ask := CallCanMessage (capability_query addr) network in
  create_and_deliver c addr msg st
  = match Client_canMessage (capability_query addr) network (snd st) with
    | inl e => (inl e, st, [ask])
    | inr canReceive =>
        if truthy_opt_bool (canReceive !! toLowerCase addr) then
          match conversations_newDm c addr (snd st) with
          | (inl dmError, w) =>
              (inl (new_Error (creation_failure addr dmError)), (fst st, w),
               [ask; CallNewDm addr])
          | (inr conv, w) =>
              match send conv msg w with
              | (inl e, w') => (inl e, (fst st, w'), [ask; CallNewDm addr; CallSend conv msg])
              | (inr sent, w') =>
                  (inr (delivered sent), (fst st, w'),
                   [ask; CallNewDm addr; CallSend conv msg;
                    Console (Log ["✓ Message sent to " +:+ addr])])
              end
          end
        else
          (inl (new_Error ("Address " +:+ addr +:+ " cannot receive XMTP messages")),
           st, [ask])
    end.
Proof.
  intros network ask. unfold create_and_deliver, bind.
  rewrite create_conversation_run. cbv zeta. fold network. fold ask.
  destruct (Client_canMessage _ network (snd st)) as [e|canReceive]; [reflexivity|].
  destruct (truthy_opt_bool (canReceive !! toLowerCase addr)); [|reflexivity].
  destruct (conversations_newDm c addr (snd st)) as [[e|conv] w]; [reflexivity|].
  rewrite deliver_run. simpl.
  destruct (send conv msg w) as [[e|sent] w']; reflexivity.
Qed.

(** With an existing conversation the relay goes straight to the send. *)
Lemma relay_existing c addr msg st conv :
  client (fst st) = Some c ->
  lookup_result c addr st = inr (Some conv) ->
  exists t, relay c addr msg st
            = (outcome (deliver addr msg conv) st, final (deliver addr msg conv) st,
               t ++ trace (deliver addr msg conv) st)
            /\ Forall (fun ev => is_lookup ev = true) t.
Proof.
  intros Hc Hres. destruct (lookup_conversation_cached addr st c Hc) as (t & Hrun & Hall).
  rewrite Hres in Hrun. exists t. split; [|exact Hall].
  unfold relay, bind. rewrite Hrun. unfold ret. simpl.
  unfold outcome, final, trace.
  destruct (deliver addr msg conv st) as [[r s] t']. reflexivity.
Qed.

(** Without one the relay goes through the capability check and the creation. *)
Lemma relay_none c addr msg st t :
  lookup_conversation c addr st = (inr None, st, t) ->
  relay c addr msg st
  = (outcome (create_and_deliver c addr msg) st,
     final (create_and_deliver c addr msg) st,
     t ++ trace (create_and_deliver c addr msg) st).
Proof.
  intros Hrun. unfold relay. rewrite (bind_inr _ _ _ _ _ _ Hrun). reflexivity.
Qed.

Lemma relay_lookup_throws c addr msg st e :
  client (fst st) = Some c ->
  lookup_result c addr st = inl e ->
  outcome (relay c addr msg) st = inl e
  /\ exists inbox, conversations_getDmByInboxId c inbox (snd st) = inl e.
Proof.
  intros Hc Hres. destruct (lookup_conversation_cached addr st c Hc) as (t & Hrun & _).
  rewrite Hres in Hrun. split.
  - unfold outcome, relay, bind. rewrite Hrun. reflexivity.
  - unfold lookup_result in Hres. destruct (resolution c addr st) as [inbox|]; [|discriminate].
    destruct (truthy_string inbox); [|discriminate]. exists inbox. exact Hres.
Qed.

Lemma relay_throws c addr msg st e :
  client (fst st) = Some c ->
  outcome (relay c addr msg) st = inl e -> own_error addr e \/ sdk_error msg e.
Proof.
  intros Hc H. destruct (lookup_result c addr st) as [e0|[conv|]] eqn:Hres.
  - destruct (relay_lookup_throws c addr msg st e0 Hc Hres) as (H1 & inbox & H2).
    rewrite H1 in H. injection H as <-. right. right. left. eauto.
  - destruct (relay_existing c addr msg st conv Hc Hres) as (t & Hrun & _).
    unfold outcome at 1 in H. rewrite Hrun in H. simpl in H.
    apply deliver_throws in H. right. right. right. right. eauto.
  - destruct (lookup_conversation_cached addr st c Hc) as (t & Hlook & _).
    rewrite Hres in Hlook.
    unfold outcome at 1 in H. rewrite (relay_none c addr msg st t Hlook) in H.
    simpl in H. unfold create_and_deliver in H.
    apply bind_outcome_inl in H as [H|(conv & _ & H)].
    + apply create_conversation_throws in H as [H|H]; [left; exact H|].
      right. right. right. left. exact H.
    + apply deliver_throws in H. right. right. right. right. eauto.
Qed.

Lemma sendMessage_try_throws addr msg st e :
  outcome (sendMessage_try addr msg) st = inl e -> own_error addr e \/ sdk_error msg e.
Proof.
  intros H. destruct (initializeClient st) as [[[e0|[]] st1] t1] eqn:Hinit.
  - unfold outcome, sendMessage_try, bind in H. rewrite Hinit in H. simpl in H.
    injection H as <-. left. left.
    apply (initializeClient_throws st). unfold outcome. rewrite Hinit. reflexivity.
  - destruct (initializeClient_ok_client st st1 t1 Hinit) as (c & Hc & _).
    destruct (conversations_sync c (snd st1)) as [[e0|[]] w2] eqn:Hsync.
    + unfold outcome, sendMessage_try, bind in H.
      rewrite Hinit, (require_client_cached st1 c Hc) in H.
      unfold call in H. rewrite Hsync in H. simpl in H. injection H as <-.
      right. left. exists c, (snd st1). rewrite Hsync. reflexivity.
    + unfold outcome at 1 in H.
      rewrite (sendMessage_try_synced addr msg st st1 t1 c w2 Hinit Hc Hsync) in H.
      simpl in H. apply (relay_throws c addr msg (fst st1, w2)); [exact Hc | exact H].
Qed.

Lemma sendMessage_try_success addr msg st r :
  outcome (sendMessage_try addr msg) st = inr r -> exists sent, r = delivered sent.
Proof.
  intros H. unfold sendMessage_try in H.
  apply bind_outcome_inr in H as (_ & s1 & H).
  apply bind_outcome_inr in H as (c & s2 & H).
  apply bind_outcome_inr in H as (_ & s3 & H).
  unfold relay in H.
  apply bind_outcome_inr in H as (existing & s4 & H).
  apply bind_outcome_inr in H as (conv & s5 & H).
  apply deliver_success in H. exact H.
Qed.

Lemma sendMessage_try_success_trace addr msg st r st' t :
  sendMessage_try addr msg st = (inr r, st', t) ->
  exists t0, t = t0 ++ [Console (Log ["✓ Message sent to " +:+ addr])].
Proof.
  unfold sendMessage_try, relay. intros H.
  apply bind_inr_inv in H as (? & s1 & t1 & t1' & _ & H & ->).
  apply bind_inr_inv in H as (c & s2 & t2 & t2' & _ & H & ->).
  apply bind_inr_inv in H as (? & s3 & t3 & t3' & _ & H & ->).
  apply bind_inr_inv in H as (existing & s4 & t4 & t4' & _ & H & ->).
  apply bind_inr_inv in H as (conv & s5 & t5 & t5' & _ & H & ->).
  rewrite deliver_run in H.
  destruct (send conv msg (snd s5)) as [[e|sent] w]; [discriminate|].
  injection H as _ _ <-.
  exists (t1 ++ t2 ++ t3 ++ t4 ++ t5 ++ [CallSend conv msg]).
  repeat rewrite <- app_assoc. reflexivity.
Qed.

(** A successful run ends with a send, and its result is built from what
    that send resolved to. *)
Lemma sendMessage_try_sent addr msg st r st' t :
  sendMessage_try addr msg st = (inr r, st', t) ->
  exists conv w sent t0,
    fst (send conv msg w) = inr sent
    /\ r = delivered sent
    /\ t = t0 ++ [CallSend conv msg; Console (Log ["✓ Message sent to " +:+ addr])].
Proof.
  unfold sendMessage_try, relay. intros H.
  apply bind_inr_inv in H as (? & s1 & t1 & t1' & _ & H & ->).
  apply bind_inr_inv in H as (c & s2 & t2 & t2' & _ & H & ->).
  apply bind_inr_inv in H as (? & s3 & t3 & t3' & _ & H & ->).
  apply bind_inr_inv in H as (existing & s4 & t4 & t4' & _ & H & ->).
  apply bind_inr_inv in H as (conv & s5 & t5 & t5' & _ & H & ->).
  rewrite deliver_run in H.
  destruct (send conv msg (snd s5)) as [[e|sent] w] eqn:Hsend; [discriminate|].
  injection H as <- _ <-.
  exists conv, (snd s5), sent, (t1 ++ t2 ++ t3 ++ t4 ++ t5).
  rewrite Hsend. repeat split. repeat rewrite <- app_assoc. reflexivity.
Qed.

(** Every run of [sendMessage] ends with the console line of its result. *)
Lemma sendMessage_reports addr msg st :
  exists r, outcome (sendMessage addr msg) st = inr r
    /\ last (console_of (trace (sendMessage addr msg) st)) = Some (relay_report addr r).
Proof.
  rewrite sendMessage_returns, sendMessage_trace. unfold outcome, trace.
  destruct (sendMessage_try addr msg st) as [[[e|r] st1] t1] eqn:Htry; simpl.
  - eexists. split; [reflexivity|].
    unfold console_of. rewrite omap_app. simpl. apply last_snoc.
  - destruct (sendMessage_try_success_trace addr msg st r st1 t1 Htry) as (t0 & ->).
    assert (Hr := sendMessage_try_success addr msg st r).
    unfold outcome in Hr. rewrite Htry in Hr. destruct (Hr eq_refl) as (sent & ->).
    eexists. split; [reflexivity|].
    rewrite app_nil_r. unfold console_of. rewrite omap_app. simpl. apply last_snoc.
Qed.

(** The run of [sendMessage] when the search returns [null]. *)
Lemma sendMessage_fallthrough addr msg st st1 t1 c w2 t :
  initializeClient st = (inr tt, st1, t1) ->
  client (fst st1) = Some c ->
  conversations_sync c (snd st1) = (inr tt, w2) ->
  lookup_conversation c addr (fst st1, w2) = (inr None, (fst st1, w2), t) ->
  outcome (sendMessage addr msg) st
  = match outcome (create_and_deliver c addr msg) (fst st1, w2) with
    | inl e => inr (failure (errorMessage_of e))
    | inr r => inr r
    end
  /\ trace (sendMessage addr msg) st
     = t1 ++ CallSync :: (t ++ trace (create_and_deliver c addr msg) (fst st1, w2))
       ++ match outcome (create_and_deliver c addr msg) (fst st1, w2) with
          | inl e => [Console (Err ["Error sending message to " +:+ addr +:+ ":";
                                    errorMessage_of e])]
          | inr _ => []
          end.
Proof.
  intros Hinit Hc Hsync Hlook.
  destruct (sendMessage_synced addr msg st st1 t1 c w2 Hinit Hc Hsync) as [Hout Htr].
  pose proof (relay_none c addr msg (fst st1, w2) t Hlook) as Hrelay.
  unfold outcome at 2 in Hout. unfold outcome at 1, trace at 2 in Htr.
  rewrite Hrelay in Hout, Htr. simpl in Hout, Htr. split; assumption.
Qed.

(** **** Classes of events *)

Lemma lookup_no_canMessage ev : is_lookup ev = true -> is_canMessage ev = false.
Proof. destruct ev; cbn; congruence. Qed.
Lemma lookup_no_newDm ev : is_lookup ev = true -> is_newDm ev = false.
Proof. destruct ev; cbn; congruence. Qed.
Lemma lookup_no_send ev : is_lookup ev = true -> is_send ev = false.
Proof. destruct ev; cbn; congruence. Qed.
Lemma scan_no_getDm ev : is_scan ev = true -> is_getDm ev = false.
Proof. destruct ev; simpl; congruence. Qed.
Lemma init_no_canMessage ev : is_init ev = true -> is_canMessage ev = false.
Proof. destruct ev; simpl; congruence. Qed.
Lemma init_no_newDm ev : is_init ev = true -> is_newDm ev = false.
Proof. destruct ev; simpl; congruence. Qed.
Lemma init_no_send ev : is_init ev = true -> is_send ev = false.
Proof. destruct ev; simpl; congruence. Qed.
Lemma init_no_getDm ev : is_init ev = true -> is_getDm ev = false.
Proof. destruct ev; simpl; congruence. Qed.

Lemma own_error_nonempty addr e : own_error addr e -> errorMessage_of e <> "".
Proof. intros [[x ->]|[->|[x ->]]]; simpl; discriminate. Qed.

(** **** The properties of the specification *)

(** C2, as amended. [sendMessage] never raises to its caller. When a thrown
    value reaches its [catch] clause, it returns [{success: false, error}]
    where [error] is the message of the thrown [Error] (the string conversion
    of any other thrown value). That thrown value is either an error the
    service raises itself (failed initialisation, address that cannot
    receive, failed creation), whose message is never empty, or the value a
    call of the SDK threw (synchronisation, lookup of the one-to-one
    conversation, capability check, send), whose message is relayed as it is. *)
Theorem sendMessage_never_throws addr msg st :
  exists r, outcome (sendMessage addr msg) st = inr r
    /\ forall e, outcome (sendMessage_try addr msg) st = inl e ->
         r = failure (errorMessage_of e)
         /\ ((own_error addr e /\ errorMessage_of e <> "") \/ sdk_error msg e).
Proof.
  rewrite sendMessage_returns.
  destruct (outcome (sendMessage_try addr msg) st) as [e|r] eqn:Htry.
  - exists (failure (errorMessage_of e)). split; [reflexivity|].
    intros e' [= <-]. split; [reflexivity|].
    destruct (sendMessage_try_throws addr msg st e Htry) as [Hown|Hsdk].
    + left. split; [exact Hown | exact (own_error_nonempty addr e Hown)].
    + right. exact Hsdk.
  - exists r. split; [reflexivity|]. intros e' [=].
Qed.

(** C3, as amended. Every result of [sendMessage] is a failure with an
    [error] and no [messageId], or a success with no [error] whose
    [messageId] is the [id] of the value the send resolved to: a run that
    succeeds ends with that send, and [messageId] is there exactly when that
    value has an [id]. *)
Theorem relay_result_one_field addr msg st :
  exists r, outcome (sendMessage addr msg) st = inr r
    /\ ((success r = true /\ error r = None
         /\ exists conv w sent,
              In (CallSend conv msg) (trace (sendMessage addr msg) st)
              /\ fst (send conv msg w) = inr sent
              /\ messageId r = sent_id sent)
        \/ (success r = false /\ is_Some (error r) /\ messageId r = None)).
Proof.
  rewrite sendMessage_returns, sendMessage_trace. unfold outcome, trace.
  destruct (sendMessage_try addr msg st) as [[[e|r] st1] t1] eqn:Htry; simpl.
  - eexists. split; [reflexivity|]. right. simpl. eauto.
  - destruct (sendMessage_try_sent addr msg st r st1 t1 Htry)
      as (conv & w & sent & t0 & Hsend & -> & ->).
    eexists. split; [reflexivity|]. left. simpl. repeat split.
    exists conv, w, sent. repeat split; [|exact Hsend].
    rewrite app_nil_r. apply in_or_app. right. left. reflexivity.
Qed.

(** C8. After a first successful call of [initializeClient] on a service
    without a client, every further call in a row returns at once: over the
    first call and any number of further calls the client constructor is
    invoked exactly once. *)
Theorem initializeClient_constructs_once st st1 t1 n :
  client (fst st) = None ->
  initializeClient st = (inr tt, st1, t1) ->
  initializeClient_times n st1 = (inr tt, st1, [])
  /\ length (List.filter is_create (t1 ++ trace (initializeClient_times n) st1)) = 1.
Proof.
  intros Hnone Hinit.
  destruct (initializeClient_fresh_ok st st1 t1 Hnone Hinit) as (c & Hc & _ & Hf & Hlen).
  pose proof (initializeClient_times_cached n st1 c Hc) as Hn.
  split; [exact Hn|].
  unfold trace. rewrite Hn. simpl. rewrite app_nil_r, Hf.
  destruct t1 as [|ev [|ev' t1]]; simpl in *; try discriminate. reflexivity.
Qed.


(** C5. When the search for an existing conversation finds none and the
    capability check reports that the address cannot receive messages,
    [sendMessage] returns [{success: false, error}] with an error that
    contains the address, and calls neither the creation nor the send. *)
Theorem cannot_receive_is_refused addr msg st st1 t1 c w2 canReceive :
  initializeClient st = (inr tt, st1, t1) ->
  client (fst st1) = Some c ->
  conversations_sync c (snd st1) = (inr tt, w2) ->
  outcome (lookup_conversation c addr) (fst st1, w2) = inr None ->
  Client_canMessage (capability_query addr) (environment (config (fst st))) w2
  = inr canReceive ->
  truthy_opt_bool (canReceive !! toLowerCase addr) = false ->
  exists err,
    outcome (sendMessage addr msg) st = inr (failure err)
    /\ err = "Address " +:+ addr +:+ " cannot receive XMTP messages"
    /\ includes err addr = true
    /\ List.filter is_newDm (trace (sendMessage addr msg) st) = []
    /\ List.filter is_send (trace (sendMessage addr msg) st) = [].
Proof.
  intros Hinit Hc Hsync Hnone Hcan Hfalse.
  destruct (initializeClient_ok_client st st1 t1 Hinit) as (c' & _ & Hcfg).
  destruct (lookup_conversation_none addr (fst st1, w2) c Hc Hnone) as (t & Hlook & Hall).
  destruct (sendMessage_fallthrough addr msg st st1 t1 c w2 t Hinit Hc Hsync Hlook)
    as [Hout Htr].
  pose proof (create_and_deliver_run c addr msg (fst st1, w2)) as Hrun.
  simpl in Hrun. rewrite Hcfg, Hcan, Hfalse in Hrun.
  unfold outcome at 2 in Hout. unfold outcome at 1, trace at 2 in Htr.
  rewrite Hrun in Hout, Htr. simpl in Hout, Htr.
  pose proof (initializeClient_ok_trace st st1 t1 Hinit) as Hinit_tr.
  eexists. split; [exact Hout|]. split; [reflexivity|].
  split; [apply includes_middle|]. rewrite Htr.
  split; rewrite !List.filter_app; simpl; rewrite !List.filter_app; simpl.
  - rewrite (filter_none _ _ t1 init_no_newDm Hinit_tr).
    rewrite (filter_none _ _ t lookup_no_newDm Hall). reflexivity.
  - rewrite (filter_none _ _ t1 init_no_send Hinit_tr).
    rewrite (filter_none _ _ t lookup_no_send Hall). reflexivity.
Qed.

(** C6. When the search for an existing conversation finds none and the
    capability check reports that the address can receive messages,
    [sendMessage] calls the creation with the address as it was given. If
    the creation throws, the result is [{success: false, error}] where
    [error] wraps the message of the thrown value, and nothing is sent; if
    it returns a conversation, the message is sent through it and the result
    is that of the send. *)
Theorem can_receive_creates_then_sends addr msg st st1 t1 c w2 canReceive :
  initializeClient st = (inr tt, st1, t1) ->
  client (fst st1) = Some c ->
  conversations_sync c (snd st1) = (inr tt, w2) ->
  outcome (lookup_conversation c addr) (fst st1, w2) = inr None ->
  Client_canMessage (capability_query addr) (environment (config (fst st))) w2
  = inr canReceive ->
  truthy_opt_bool (canReceive !! toLowerCase addr) = true ->
  List.filter is_newDm (trace (sendMessage addr msg) st) = [CallNewDm addr]
  /\ match conversations_newDm c addr w2 with
     | (inl dmError, _) =>
         outcome (sendMessage addr msg) st
         = inr (failure (creation_failure addr dmError))
         /\ List.filter is_send (trace (sendMessage addr msg) st) = []
     | (inr conv, w3) =>
         List.filter is_send (trace (sendMessage addr msg) st) = [CallSend conv msg]
         /\ outcome (sendMessage addr msg) st
            = match fst (send conv msg w3) with
              | inr sent => inr (delivered sent)
              | inl e => inr (failure (errorMessage_of e))
              end
     end.
Proof.
  intros Hinit Hc Hsync Hnone Hcan Htrue.
  destruct (initializeClient_ok_client st st1 t1 Hinit) as (c' & _ & Hcfg).
  destruct (lookup_conversation_none addr (fst st1, w2) c Hc Hnone) as (t & Hlook & Hall).
  destruct (sendMessage_fallthrough addr msg st st1 t1 c w2 t Hinit Hc Hsync Hlook)
    as [Hout Htr].
  pose proof (create_and_deliver_run c addr msg (fst st1, w2)) as Hrun.
  simpl in Hrun. rewrite Hcfg, Hcan, Htrue in Hrun.
  pose proof (initializeClient_ok_trace st st1 t1 Hinit) as Hinit_tr.
  pose proof (filter_none _ _ t1 init_no_newDm Hinit_tr) as Hi1.
  pose proof (filter_none _ _ t1 init_no_send Hinit_tr) as Hi2.
  pose proof (filter_none _ _ t lookup_no_newDm Hall) as Hl1.
  pose proof (filter_none _ _ t lookup_no_send Hall) as Hl2.
  unfold outcome at 2 in Hout. unfold outcome at 1, trace at 2 in Htr.
  destruct (conversations_newDm c addr w2) as [[dmError|conv] w3].
  - rewrite Hrun in Hout, Htr. simpl in Hout, Htr. rewrite Htr.
    rewrite !List.filter_app. simpl. rewrite !List.filter_app. simpl.
    rewrite Hi1, Hi2, Hl1, Hl2. repeat split. exact Hout.
  - destruct (send conv msg w3) as [[e|sent] w4];
      rewrite Hrun in Hout, Htr; simpl in Hout, Htr; rewrite Htr;
      rewrite !List.filter_app; simpl; rewrite !List.filter_app; simpl;
      rewrite Hi1, Hi2, Hl1, Hl2; repeat split; exact Hout.
Qed.

(** C10. [getInboxIdFromAddress] never throws. When listing the
    conversations or reading an inbox state throws during the scan, it
    returns [null]; [sendMessage] then looks no one-to-one conversation up,
    makes the capability check, and its result is that of the capability
    check, creation and send, not the error of the scan. *)
Theorem resolution_failure_is_not_fatal addr msg st st1 t1 c w2 e :
  initializeClient st = (inr tt, st1, t1) ->
  client (fst st1) = Some c ->
  conversations_sync c (snd st1) = (inr tt, w2) ->
  (conversations_list c w2 = inl e
   \/ exists convs, conversations_list c w2 = inr convs
                    /\ outcome (scan_conversations c addr convs) (fst st1, w2) = inl e) ->
  (forall st', exists found, outcome (getInboxIdFromAddress addr) st' = inr found)
  /\ outcome (getInboxIdFromAddress addr) (fst st1, w2) = inr None
  /\ List.filter is_getDm (trace (sendMessage addr msg) st) = []
  /\ List.filter is_canMessage (trace (sendMessage addr msg) st)
     = [CallCanMessage (capability_query addr) (environment (config (fst st)))]
  /\ outcome (sendMessage addr msg) st
     = match outcome (create_and_deliver c addr msg) (fst st1, w2) with
       | inl e' => inr (failure (errorMessage_of e'))
       | inr r => inr r
       end.
Proof.
  intros Hinit Hc Hsync Hthrows.
  split; [intros st'; apply getInboxIdFromAddress_total|].
  destruct (initializeClient_ok_client st st1 t1 Hinit) as (c' & _ & Hcfg).
  assert (Hres : resolution c addr (fst st1, w2) = None).
  { unfold resolution. simpl. destruct Hthrows as [-> | (convs & -> & ->)]; reflexivity. }
  split.
  { destruct (getInboxIdFromAddress_cached addr (fst st1, w2) c Hc) as (t & Hrun & _).
    unfold outcome. rewrite Hrun, Hres. reflexivity. }
  destruct (lookup_conversation_unresolved addr (fst st1, w2) c Hc Hres)
    as (t & Hlook & Hall).
  destruct (sendMessage_fallthrough addr msg st st1 t1 c w2 t Hinit Hc Hsync Hlook)
    as [Hout Htr].
  split; [|split; [|exact Hout]].
  - pose proof (initializeClient_ok_trace st st1 t1 Hinit) as Hinit_tr.
    rewrite Htr. pose proof (create_and_deliver_run c addr msg (fst st1, w2)) as Hrun.
    simpl in Hrun. unfold outcome, trace. rewrite Hrun. clear Hrun.
    rewrite !List.filter_app. simpl. rewrite !List.filter_app.
    rewrite (filter_none _ _ t1 init_no_getDm Hinit_tr).
    rewrite (filter_none _ _ t scan_no_getDm Hall).
    destruct (Client_canMessage _ _ w2) as [e0|canReceive]; [reflexivity|].
    destruct (truthy_opt_bool _); [|reflexivity].
    destruct (conversations_newDm c addr w2) as [[e0|conv] w3]; [reflexivity|].
    destruct (send conv msg w3) as [[e0|sent] w4]; reflexivity.
  - pose proof (initializeClient_ok_trace st st1 t1 Hinit) as Hinit_tr.
    apply (List.Forall_impl (fun ev => is_lookup ev = true) scan_is_lookup) in Hall.
    rewrite Htr. pose proof (create_and_deliver_run c addr msg (fst st1, w2)) as Hrun.
    simpl in Hrun. unfold outcome, trace. rewrite Hrun, Hcfg. clear Hrun.
    rewrite !List.filter_app. simpl. rewrite !List.filter_app.
    rewrite (filter_none _ _ t1 init_no_canMessage Hinit_tr).
    rewrite (filter_none _ _ t lookup_no_canMessage Hall).
    destruct (Client_canMessage _ _ w2) as [e0|canReceive]; [reflexivity|].
    destruct (truthy_opt_bool _); [|reflexivity].
    destruct (conversations_newDm c addr w2) as [[e0|conv] w3]; [reflexivity|].
    destruct (send conv msg w3) as [[e0|sent] w4]; reflexivity.
Qed.

End ServiceProperties.

(** *** The signer adapter *)

Section SignerProperties.
Context {viem : Viem}.

(** C7. For a raw private key that does not start with [0x], the identity
    of the signer is the identity of the signer made from the key with [0x]
    prepended; the address in it is the lower-case form of the address of
    the account (an Ethereum identifier). *)
Theorem createSigner_adds_prefix (k : string) :
  startsWith k "0x" = false ->
  identity_of (createSigner k) = identity_of (createSigner ("0x" +:+ k))
  /\ forall ident, identity_of (createSigner k) = inr ident ->
       no_upper (identifier ident) = true
       /\ identifierKind ident = Ethereum
       /\ exists acc, privateKeyToAccount ("0x" +:+ k) = inr acc
                      /\ identifier ident = toLowerCase (address acc).
Proof.
  intros Hk. unfold createSigner. rewrite Hk, (startsWith_prepended "0x" k).
  split; [reflexivity|]. unfold createUser.
  destruct (privateKeyToAccount ("0x" +:+ k)) as [e|acc]; simpl; [discriminate|].
  intros ident [= <-]. simpl. split; [apply no_upper_toLowerCase|].
  split; [reflexivity|]. exists acc. split; reflexivity.
Qed.

End SignerProperties.

(** *** The bus listener *)

Section ListenerProperties.
Context {json : Json}.

(** C1, on the code. When the text of a bus message parses as JSON,
    [handleMessage] writes six lines to the console (banner, time, channel,
    raw text, parsed value, footer) and does nothing else: none of these
    lines is the line [sendMessage] prints for a result, whatever the
    address and the result. *)
Theorem handleMessage_only_logs receivedAt message channel v :
  JSON_parse message = inr v ->
  handleMessage receivedAt message channel
  = [Log [banner];
     Log ["🕒 Received: " +:+ receivedAt];
     Log ["📡 Channel: " +:+ channel];
     Log ["🔍 RAW MESSAGE:"; message];
     Log ["🔍 PARSED MESSAGE:"; JSON_stringify v];
     Log [footer]]
  /\ forall addr r, ~ In (relay_report addr r) (handleMessage receivedAt message channel).
Proof.
  intros Hparse. unfold handleMessage. rewrite Hparse. split; [reflexivity|].
  intros addr r. unfold relay_report. simpl.
  destruct (success r);
    intros [H|[H|[H|[H|[H|[H|[]]]]]]]; vm_compute in H; discriminate.
Qed.

End ListenerProperties.

(** *** Runs on concrete libraries *)

Section FriendlyNetwork.
#[local] Existing Instances Mock.viem Mock.u8 Mock.friendly_net.
Import Mock.

Example friendly_run :
  sendMessage alice "hi" (start friendly)
  = (inr {| success := true; messageId := Some "msg-1"; error := None |},
     ({| config := cfg; client := Some tt |}, 3),
     [CallCreate {| identifier := "0xaddr0xab12"; identifierKind := Ethereum |}
                 {| dbEncryptionKey := []; env := "dev"; dbPath := "./data/xmtp_database" |};
      Console (Log ["✓ XMTP client initialized"]);
      CallSync; CallList;
      CallInboxState ["inbox-bob"]; CallInboxState ["inbox-alice"];
      CallGetDm "inbox-alice";
      CallSend ("dm-alice", [{| inboxId := "inbox-alice" |}]) "hi";
      Console (Log ["✓ Message sent to 0xAbCdEf"])]).
Proof. reflexivity. Qed.

(** C8 on the friendly network: a first call, then two more. *)
Lemma initializeClient_constructs_once_witness :
  let st1 := final initializeClient (start friendly) in
  initializeClient_times 2 st1 = (inr tt, st1, [])
  /\ length (List.filter is_create
               (trace initializeClient (start friendly)
                ++ trace (initializeClient_times 2) st1)) = 1.
Proof.
  apply (initializeClient_constructs_once (start friendly)
           (final initializeClient (start friendly))
           (trace initializeClient (start friendly)) 2); reflexivity.
Defined.


End FriendlyNetwork.

Section SkippedConversation.
#[local] Existing Instances Mock.viem Mock.u8 Mock.bob_unreadable_net.
Import Mock.


End SkippedConversation.

Section AnonymousSend.
#[local] Existing Instances Mock.viem Mock.u8 Mock.anonymous_net.
Import Mock.

(** C3 as stated fails: when the send resolves to a value without [id], the
    result is a success that carries neither [messageId] nor [error]. *)
Lemma success_without_messageId :
  outcome (sendMessage alice "hi") (start anonymous)
  = inr {| success := true; messageId := None; error := None |}
  /\ List.filter is_send (trace (sendMessage alice "hi") (start anonymous))
     = [CallSend ("dm-alice", [{| inboxId := "inbox-alice" |}]) "hi"].
Proof. split; reflexivity. Qed.

End AnonymousSend.

Section FailingSynchronisation.
#[local] Existing Instances Mock.viem Mock.u8.
Import Mock.

(** C2 as stated fails: when the synchronisation throws [new Error()], the
    error of the result is the empty string. *)
Lemma sendMessage_empty_error :
  @outcome (xmtp sync_fails_silently) _
     (@sendMessage_try _ _ (xmtp sync_fails_silently) alice "hi")
     (start sync_fails_silently)
  = inl (JsError "Error" "")
  /\ @outcome (xmtp sync_fails_silently) _
       (@sendMessage _ _ (xmtp sync_fails_silently) alice "hi")
       (start sync_fails_silently)
     = inr {| success := false; messageId := None; error := Some "" |}.
Proof. split; reflexivity. Qed.

(** C2, as amended, on a synchronisation that throws with a message. *)
Lemma sendMessage_never_throws_witness :
  exists r,
    @outcome (xmtp sync_fails) _ (@sendMessage _ _ (xmtp sync_fails) alice "hi")
       (start sync_fails) = inr r
    /\ r = failure "network down".
Proof.
  destruct (@sendMessage_never_throws _ _ (xmtp sync_fails) alice "hi" (start sync_fails))
    as (r & Hr & Hthrown).
  exists r. split; [exact Hr|].
  exact (proj1 (Hthrown (JsError "Error" "network down") eq_refl)).
Defined.

End FailingSynchronisation.

Section UnreachableNetwork.
#[local] Existing Instances Mock.viem Mock.u8 Mock.unreachable_net.
Import Mock.

(** C5 on a network where nobody can receive messages. *)
Lemma cannot_receive_is_refused_witness :
  exists err,
    outcome (sendMessage alice "hi") (start unreachable) = inr (failure err)
    /\ err = "Address 0xAbCdEf cannot receive XMTP messages"
    /\ includes err alice = true
    /\ List.filter is_newDm (trace (sendMessage alice "hi") (start unreachable)) = []
    /\ List.filter is_send (trace (sendMessage alice "hi") (start unreachable)) = [].
Proof.
  apply (cannot_receive_is_refused alice "hi" (start unreachable)
           (final initializeClient (start unreachable))
           (trace initializeClient (start unreachable)) tt 2 ∅); reflexivity.
Defined.

End UnreachableNetwork.

Section NewcomerNetwork.
#[local] Existing Instances Mock.viem Mock.u8 Mock.newcomer_net.
Import Mock.

(** C6 on a network where [alice] is new and can receive messages. *)
Lemma can_receive_creates_then_sends_witness :
  List.filter is_newDm (trace (sendMessage alice "hi") (start newcomer))
  = [CallNewDm alice]
  /\ List.filter is_send (trace (sendMessage alice "hi") (start newcomer))
     = [CallSend ("dm-new", [{| inboxId := "inbox-alice" |}]) "hi"]
  /\ outcome (sendMessage alice "hi") (start newcomer)
     = inr (delivered {| sent_id := Some "msg-3" |}).
Proof.
  exact (can_receive_creates_then_sends alice "hi" (start newcomer)
           (final initializeClient (start newcomer))
           (trace initializeClient (start newcomer)) tt 2 {[ "0xabcdef" := true ]}
           eq_refl eq_refl eq_refl eq_refl eq_refl eq_refl).
Defined.

End NewcomerNetwork.

Section UnreadableNetwork.
#[local] Existing Instances Mock.viem Mock.u8 Mock.unreadable_net.
Import Mock.

(** C10 on the friendly network when the inbox states cannot be read: the
    scan throws, and the message goes through a new conversation. *)
Lemma resolution_failure_is_not_fatal_witness :
  outcome (getInboxIdFromAddress alice)
          (fst (final initializeClient (start unreadable)), 2) = inr None
  /\ List.filter is_getDm (trace (sendMessage alice "hi") (start unreadable)) = []
  /\ List.filter is_canMessage (trace (sendMessage alice "hi") (start unreadable))
     = [CallCanMessage (capability_query alice) "dev"]
  /\ outcome (sendMessage alice "hi") (start unreadable)
     = inr (delivered {| sent_id := Some "msg-3" |}).
Proof.
  apply (resolution_failure_is_not_fatal alice "hi" (start unreadable)
           (final initializeClient (start unreadable))
           (trace initializeClient (start unreadable)) tt 2
           (JsError "Error" "inbox state unavailable")).
  - reflexivity.
  - reflexivity.
  - reflexivity.
  - right. eexists. split; reflexivity.
Defined.

End UnreadableNetwork.

Section SignerRun.
#[local] Existing Instance Mock.viem.

(** C7 on the key [ab12]. *)
Lemma createSigner_adds_prefix_witness :
  identity_of (createSigner "ab12") = identity_of (createSigner "0xab12")
  /\ identity_of (createSigner "ab12")
     = inr {| identifier := "0xaddr0xab12"; identifierKind := Ethereum |}.
Proof.
  split.
  - exact (proj1 (createSigner_adds_prefix "ab12" eq_refl)).
  - reflexivity.
Defined.

End SignerRun.

Section ListenerRun.
#[local] Existing Instance Mock.json.

(** C1 on the code: the payload of the README is parsed and logged, and
    that is all. *)
Lemma handleMessage_only_logs_witness :
  handleMessage "2025-01-01T00:00:00.000Z" Mock.payload "ethereum-messages"
  = [Log [banner];
     Log ["🕒 Received: 2025-01-01T00:00:00.000Z"];
     Log ["📡 Channel: ethereum-messages"];
     Log ["🔍 RAW MESSAGE:"; Mock.payload];
     Log ["🔍 PARSED MESSAGE:"; "ethereumAddress: 0xAbCdEf, message: hi"];
     Log [footer]].
Proof.
  exact (proj1 (handleMessage_only_logs "2025-01-01T00:00:00.000Z" Mock.payload
                  "ethereum-messages"
                  [("ethereumAddress", "0xAbCdEf"); ("message", "hi")] eq_refl)).
Defined.

End ListenerRun.

Section EnvRuns.
Import Env.

(** C9 as stated fails: a required key that is set to the empty string is
    present, and the process exits all the same. *)
Lemma empty_value_counts_as_missing :
  is_Some (({[ "XMTP_ENV" := "" ]} : gmap string string) !! "XMTP_ENV")
  /\ validateEnvironment ["XMTP_ENV"] {[ "XMTP_ENV" := "" ]} NoDotenv
     = ([Err ["Missing env vars:"; "XMTP_ENV"]], {[ "XMTP_ENV" := "" ]}, Exits 1).
Proof. split; [eexists | ]; vm_compute; reflexivity. Qed.

(** C9, as amended, on an environment with one key and a file with another:
    the third key is reported. *)
Lemma validateEnvironment_spec_witness :
  snd (validateEnvironment ["PRIVATE_KEY"; "XMTP_DB_ENCRYPTION_KEY"; "XMTP_ENV"]
         {[ "PRIVATE_KEY" := "ab12" ]} (Dotenv "XMTP_ENV = dev")) = Exits 1
  /\ last (fst (fst (validateEnvironment
                       ["PRIVATE_KEY"; "XMTP_DB_ENCRYPTION_KEY"; "XMTP_ENV"]
                       {[ "PRIVATE_KEY" := "ab12" ]} (Dotenv "XMTP_ENV = dev"))))
     = Some (Err ["Missing env vars:"; "XMTP_DB_ENCRYPTION_KEY"]).
Proof.
  pose proof (proj1 (proj2 (validateEnvironment_spec
                       ["PRIVATE_KEY"; "XMTP_DB_ENCRYPTION_KEY"; "XMTP_ENV"]
                       {[ "PRIVATE_KEY" := "ab12" ]} (Dotenv "XMTP_ENV = dev")
                       ltac:(repeat constructor)))) as H.
  vm_compute in H. vm_compute. apply H. discriminate.
Defined.

Example validateEnvironment_backfilled :
  validateEnvironment ["PRIVATE_KEY"; "XMTP_ENV"] {[ "PRIVATE_KEY" := "ab12" ]}
    (Dotenv "# network
XMTP_ENV = dev
PRIVATE_KEY=ignored")
  = ([], {[ "PRIVATE_KEY" := "ab12"; "XMTP_ENV" := "dev" ]},
     Returns {[ "PRIVATE_KEY" := Str "ab12"; "XMTP_ENV" := Str "dev" ]}).
Proof. vm_compute. reflexivity. Qed.

(** A required key that is a property of [Object.prototype] is never found
    missing: what is returned for it is the inherited property. *)
Example validateEnvironment_inherited :
  validateEnvironment ["toString"] ∅ NoDotenv
  = ([], ∅, Returns {[ "toString" := Builtin "toString" ]}).
Proof. vm_compute. reflexivity. Qed.

(** A byte order mark at the start of the file is white space of the first
    key, and a line for [__proto__] defines nothing. *)
Example validateEnvironment_byte_order_mark :
  parse_dotenv (utf8 [239; 187; 191] +:+ "XMTP_ENV=dev")
  = {[ "XMTP_ENV" := "dev" ]}
  /\ parse_dotenv (add_line "XMTP_ENV=dev" "__proto__=x") = {[ "XMTP_ENV" := "dev" ]}.
Proof. split; vm_compute; reflexivity. Qed.

End EnvRuns.

(** * More of the code *)

(** ** The [.env] file *)

Section DotenvProperties.
Import Env.

Lemma split_nonempty sep s : split sep s <> [].
Proof.
  destruct s as [|c r]; simpl; [discriminate|].
  destruct (Ascii.eqb c sep); [discriminate|].
  destruct (split sep r); discriminate.
Qed.

Lemma split_no_sep sep s : has_char sep s = false -> split sep s = [s].
Proof.
  induction s as [|c r IH]; simpl; [reflexivity|].
  intros H. apply orb_false_iff in H as [Hc Hr].
  rewrite Hc, (IH Hr). reflexivity.
Qed.

Lemma split_at_sep sep a b :
  split sep (a +:+ String sep b) = split sep a ++ split sep b.
Proof.
  induction a as [|c a IH].
  - change (split sep (String sep b) = [""] ++ split sep b). simpl.
    rewrite Ascii.eqb_refl. reflexivity.
  - change (split sep (String c (a +:+ String sep b))
            = split sep (String c a) ++ split sep b).
    simpl. rewrite IH. destruct (Ascii.eqb c sep); [reflexivity|].
    destruct (split sep a) as [|h t] eqn:Ha; [destruct (split_nonempty _ _ Ha)|].
    reflexivity.
Qed.

Lemma join_split sep s : join (String sep "") (split sep s) = s.
Proof.
  unfold join. induction s as [|c r IH]; [reflexivity|].
  simpl. destruct (Ascii.eqb_spec c sep) as [->|Hne].
  - destruct (split sep r) as [|h t] eqn:Hr; [destruct (split_nonempty _ _ Hr)|].
    change (String sep (String.concat (String sep "") (h :: t)) = String sep r).
    rewrite IH. reflexivity.
  - destruct (split sep r) as [|h t] eqn:Hr; [destruct (split_nonempty _ _ Hr)|].
    destruct t as [|h' t].
    + simpl in IH. subst h. reflexivity.
    + change (String c (String.concat (String sep "") (h :: h' :: t)) = String c r).
      rewrite IH. reflexivity.
Qed.

Lemma trim_not_blank s : has_char "=" s = true -> trim s <> "".
Proof.
  intros Hin Hs. rewrite <- (has_char_trim "=" s eq_refl), Hs in Hin. discriminate.
Qed.

Lemma has_char_assignment k v : has_char "=" (assignment k v) = true.
Proof.
  unfold assignment. induction k as [|c k IH]; [reflexivity|].
  change (has_char "=" (String c (k +:+ "=" +:+ v)) = true).
  simpl. rewrite IH. apply orb_true_r.
Qed.

(** What the [reduce] callback does with a line [KEY=VALUE]. *)
Lemma parse_line_assignment acc k v :
  k <> "" -> has_char "=" k = false ->
  parse_line acc (assignment k v) = put acc (trim k) (trim v).
Proof.
  intros Hk Heq. unfold parse_line, assignment.
  change (k +:+ "=" +:+ v) with (k +:+ String "=" v).
  rewrite split_at_sep, (split_no_sep _ _ Heq). simpl.
  unfold truthy_string. apply String.eqb_neq in Hk. rewrite Hk. simpl.
  assert (Hlen : Nat.eqb (length (split "=" v)) 0 = false).
  { destruct (split "=" v) as [|h t] eqn:Hv; [destruct (split_nonempty _ _ Hv)|].
    reflexivity. }
  rewrite Hlen. simpl. change "=" with (String "="%char "") at 1.
  rewrite join_split. reflexivity.
Qed.

Lemma startsWith_char a c r :
  startsWith (String c r) (String a "") = if Ascii.ascii_dec a c then true else false.
Proof.
  unfold startsWith. cbn [String.prefix].
  destruct (Ascii.ascii_dec a c); [destruct r|]; reflexivity.
Qed.

Lemma keep_line_assignment k v :
  k <> "" -> startsWith k "#" = false -> keep_line (assignment k v) = true.
Proof.
  intros Hk Hhash. unfold keep_line.
  assert (Hnb : trim (assignment k v) <> "")
    by (apply trim_not_blank, has_char_assignment).
  unfold truthy_string. apply String.eqb_neq in Hnb. rewrite Hnb.
  destruct k as [|c k]; [congruence|].
  unfold assignment. change (String c k +:+ "=" +:+ v) with (String c (k +:+ "=" +:+ v)).
  rewrite startsWith_char in *. rewrite Hhash. reflexivity.
Qed.

(** X1. A line [KEY=VALUE] at the end of a [.env] file defines the trimmed
    key as the trimmed value, whatever the lines before say about the key,
    and changes no other key; under the key [__proto__] it defines nothing.
    Only the first [=] separates: the value may hold [=] signs. The key is
    not empty, holds no [=] and does not start with [#]; neither part holds
    a line break. *)
Theorem parse_dotenv_last_line_wins content k v :
  k <> "" -> has_char "=" k = false -> startsWith k "#" = false ->
  has_char newline k = false -> has_char newline v = false ->
  parse_dotenv (add_line content (assignment k v))
  = if String.eqb (trim k) "__proto__" then parse_dotenv content
    else <[trim k := trim v]> (parse_dotenv content).
Proof.
  intros Hk Heq Hhash Hnk Hnv. unfold parse_dotenv, add_line.
  rewrite split_at_sep, List.filter_app, foldl_app.
  rewrite (split_no_sep newline (assignment k v)).
  - simpl. rewrite (keep_line_assignment k v Hk Hhash). simpl.
    apply parse_line_assignment; assumption.
  - unfold assignment. rewrite !has_char_append, Hnk, Hnv. reflexivity.
Qed.

(** X2. A comment line (one that starts with [#]), a blank line or a line
    without [=] at the end of a [.env] file changes nothing. *)
Theorem parse_dotenv_ignores_line content line :
  has_char newline line = false ->
  startsWith line "#" = true \/ trim line = "" \/ has_char "=" line = false ->
  parse_dotenv (add_line content line) = parse_dotenv content.
Proof.
  intros Hnl Hcase. unfold parse_dotenv, add_line.
  rewrite split_at_sep, List.filter_app, foldl_app, (split_no_sep _ _ Hnl). simpl.
  destruct (keep_line line) eqn:Hkeep; [|reflexivity]. simpl.
  unfold keep_line in Hkeep. apply andb_true_iff in Hkeep as [Hblank Hhash].
  destruct Hcase as [H|[H|H]].
  - rewrite H in Hhash. discriminate.
  - rewrite H in Hblank. discriminate.
  - unfold parse_line. rewrite (split_no_sep _ _ H). simpl.
    rewrite andb_false_r. reflexivity.
Qed.

End DotenvProperties.

(** ** The environment table and the constructor *)

Section ConstructorProperties.
Import Env.
Context {xmtp : Xmtp}.

(** X3. [validateEnvironment] changes the environment table only at required
    keys that were unset or empty: a key that is not required keeps its
    value even when the file defines it, and a non-empty value is never
    replaced by the one of the file. *)
Theorem validateEnvironment_keeps_values vars env file v :
  ~ In v vars \/ is_missing env v = false ->
  snd (fst (validateEnvironment vars env file)) !! v = env !! v.
Proof.
  intros Hv. rewrite validateEnvironment_env_after.
  destruct file as [|e|content]; try reflexivity.
  rewrite backfill_lookup.
  destruct (existsb (String.eqb v) (List.filter (is_missing env) vars)) eqn:Hex;
    [|reflexivity].
  apply mentions_iff in Hex. apply filter_In in Hex as [Hin Hmiss].
  destruct Hv as [Hv|Hv]; [contradiction | congruence].
Qed.

(** A key that is not required keeps its variable. *)
Lemma validateEnvironment_elsewhere vars env file v :
  ~ In v vars -> snd (fst (validateEnvironment vars env file)) !! v = env !! v.
Proof.
  intros Hv. rewrite validateEnvironment_env_after.
  destruct file as [|e|content]; try reflexivity.
  rewrite backfill_lookup.
  destruct (existsb (String.eqb v) (List.filter (is_missing env) vars)) eqn:Hex;
    [|reflexivity].
  apply mentions_iff in Hex. apply filter_In in Hex as [Hin _]. contradiction.
Qed.

Lemma setting_spec env file v x :
  (if is_missing env v then file_value file v = Some x else env !! v = Some x) ->
  setting env file v = Some x.
Proof. unfold setting. destruct (is_missing env v); intros H; exact H. Qed.

Lemma required_keys_ordinary : Forall (fun v => ordinary_key v = true) required_keys.
Proof. repeat constructor. Qed.

Lemma new_XMTPService_exits arg env file :
  still_missing required_keys env file <> [] ->
  snd (new_XMTPService arg env file) = Exits 1.
Proof.
  intros Hne.
  pose proof (proj1 (validateEnvironment_exits required_keys env file
                       required_keys_ordinary Hne)) as Hex.
  unfold new_XMTPService.
  destruct (validateEnvironment required_keys env file) as [[out env1] c].
  simpl in Hex. subst c. reflexivity.
Qed.

Lemma new_XMTPService_returns arg env file :
  still_missing required_keys env file = [] ->
  exists svc, snd (new_XMTPService arg env file) = Returns svc /\ client svc = None.
Proof.
  intros Hnil.
  destruct (validateEnvironment_values required_keys env file required_keys_ordinary Hnil)
    as (m & Hret & _).
  unfold new_XMTPService.
  destruct (validateEnvironment required_keys env file) as [[out env1] c].
  simpl in Hret. subst c. eexists. split; reflexivity.
Qed.

(** X4. The constructor ends the process with status 1 as soon as a required
    key is missing from the environment and the file, whatever its [config]
    argument holds: giving every value in the argument does not avoid it. *)
Theorem new_XMTPService_exits_despite_config arg env file :
  still_missing required_keys env file <> [] ->
  snd (new_XMTPService arg env file) = Exits 1.
Proof. apply new_XMTPService_exits. Qed.

Lemma or_else_setting a b x :
  b = Some x -> x <> "" ->
  exists y, or_else a b = Some y /\ y <> ""
            /\ y = (if truthy_opt_string a then default "" a else x).
Proof.
  intros -> Hx. unfold or_else. destruct a as [s|]; simpl.
  - unfold truthy_string. destruct (String.eqb_spec s "") as [->|Hs]; simpl.
    + exists x. auto.
    + exists s. auto.
  - exists x. auto.
Qed.

(** X5. When no required key is missing, the constructor returns a service
    without client whose settings are non-empty and chosen in this order:
    the non-empty field of the [config] argument, else the non-empty value
    of the environment, else the value of the file. The path of the
    database is the field of the argument, else [XMTP_DB_PATH] of the
    environment as it was before the call (the file is not used for it),
    else [./data/xmtp_database]. *)
Theorem new_XMTPService_settings arg env file :
  still_missing required_keys env file = [] ->
  exists svc key enc net,
    snd (new_XMTPService arg env file) = Returns svc
    /\ client svc = None
    /\ setting env file "PRIVATE_KEY" = Some key
    /\ setting env file "XMTP_DB_ENCRYPTION_KEY" = Some enc
    /\ setting env file "XMTP_ENV" = Some net
    /\ privateKey (config svc)
       = (if truthy_opt_string (arg_privateKey arg)
          then default "" (arg_privateKey arg) else key)
    /\ encryptionKey (config svc)
       = (if truthy_opt_string (arg_encryptionKey arg)
          then default "" (arg_encryptionKey arg) else enc)
    /\ environment (config svc)
       = (if truthy_opt_string (arg_environment arg)
          then default "" (arg_environment arg) else net)
    /\ cfg_dbPath (config svc)
       = (if truthy_opt_string (arg_dbPath arg) then default "" (arg_dbPath arg)
          else if truthy_opt_string (env !! "XMTP_DB_PATH")
               then default "" (env !! "XMTP_DB_PATH")
               else default_dbPath)
    /\ privateKey (config svc) <> "" /\ encryptionKey (config svc) <> ""
    /\ environment (config svc) <> "" /\ cfg_dbPath (config svc) <> "".
Proof.
  intros Hnil.
  destruct (validateEnvironment_values required_keys env file required_keys_ordinary Hnil)
    as (m & Hret & Hvals).
  pose proof (validateEnvironment_elsewhere required_keys env file "XMTP_DB_PATH")
    as Hpath.
  unfold new_XMTPService.
  destruct (validateEnvironment required_keys env file) as [[out env1] c].
  simpl in Hret, Hpath. subst c.
  rewrite Hpath by (intros [H|[H|[H|[]]]]; discriminate).
  destruct (Hvals "PRIVATE_KEY") as (key & Hk & Hkne & Hks); [simpl; auto|].
  destruct (Hvals "XMTP_DB_ENCRYPTION_KEY") as (enc & He & Hene & Hes); [simpl; auto|].
  destruct (Hvals "XMTP_ENV") as (net & Hn & Hnne & Hns); [simpl; auto|].
  apply (f_equal text) in Hk, He, Hn. simpl in Hk, He, Hn.
  apply setting_spec in Hks, Hes, Hns.
  destruct (or_else_setting (arg_privateKey arg) _ key Hk Hkne) as (y1 & E1 & N1 & V1).
  destruct (or_else_setting (arg_encryptionKey arg) _ enc He Hene) as (y2 & E2 & N2 & V2).
  destruct (or_else_setting (arg_environment arg) _ net Hn Hnne) as (y3 & E3 & N3 & V3).
  assert (Hdef : default_dbPath <> "") by discriminate.
  destruct (or_else_setting (env !! "XMTP_DB_PATH") _ default_dbPath eq_refl Hdef)
    as (p & Ep & Np & Vp).
  destruct (or_else_setting (arg_dbPath arg) _ p Ep Np) as (y4 & E4 & N4 & V4).
  eexists _, key, enc, net. split; [reflexivity|]. simpl.
  rewrite E1, E2, E3, E4. simpl. subst p.
  repeat split; try assumption.
Qed.

End ConstructorProperties.

(** ** The service: life cycle, batches, capability check *)

Section ServiceMore.
Context {viem : Viem} {u8 : Uint8arrays} {xmtp : Xmtp}.

Implicit Types (st : XMTPService * World) (t : list event) (e : js_exn).

Lemma run_eta {A} (m : M A) st : m st = (outcome m st, final m st, trace m st).
Proof. unfold outcome, final, trace. destruct (m st) as [[r s] t]. reflexivity. Qed.

(** X6. When [initializeClient] throws, the service still has no client and
    the same configuration, so that a later call starts again. The error is
    [Failed to initialize XMTP client: ] followed by the string form of what
    the signer, the decoding of the key or [Client.create] threw, in this
    order; [Client.create] is called only when the first two succeed, and
    otherwise the world is untouched. *)
Theorem initializeClient_failure st e :
  outcome initializeClient st = inl e ->
  client (fst (final initializeClient st)) = None
  /\ config (fst (final initializeClient st)) = config (fst st)
  /\ (exists cause,
        init_failure st cause
        /\ e = new_Error ("Failed to initialize XMTP client: " +:+ to_String cause))
  /\ length (List.filter is_create (trace initializeClient st))
     = (if reaches_create st then 1 else 0)
  /\ (reaches_create st = false -> snd (final initializeClient st) = snd st).
Proof.
  destruct st as [svc w].
  unfold outcome, final, trace, reaches_create, initializeClient, bind, this_client,
    try_catch, this_config, lift, call, set_client, emit, throw. simpl.
  destruct (client svc) eqn:Hc; simpl; [discriminate|].
  destruct (createSigner (privateKey (config svc))) as [e0|signer] eqn:Hs; simpl.
  - intros [= <-]. repeat split; try assumption.
    exists e0. split; [apply SignerFails; exact Hs | reflexivity].
  - destruct (getEncryptionKeyFromHex (encryptionKey (config svc))) as [e0|kb] eqn:Hk;
      simpl.
    + intros [= <-]. repeat split; try assumption.
      exists e0. split; [apply (KeyFails _ _ signer); assumption | reflexivity].
    + destruct (Client_create _ _ w) as [[e0|c] w1] eqn:Hcr; simpl; [|discriminate].
      intros [= <-]. repeat split; try assumption; try discriminate.
      exists e0. split; [|reflexivity].
      apply (CreateFails _ _ signer kb); try assumption.
      unfold client_options. simpl. rewrite Hcr. reflexivity.
Qed.

(** X7. [close] never throws and calls nothing of the SDK: it forgets the
    client, keeps the configuration and the world, and prints its line only
    when there was a client. A second [close] does nothing. After it, the
    next [initializeClient] calls [Client.create] again as soon as the signer
    and the key are there. *)
Theorem close_resets_the_cache st :
  outcome close st = inr tt
  /\ final close st = ({| config := config (fst st); client := None |}, snd st)
  /\ trace close st
     = match client (fst st) with
       | Some _ => [Console (Log ["✓ XMTP connection closed"])]
       | None => []
       end
  /\ close (final close st) = (inr tt, final close st, [])
  /\ (reaches_create st = true ->
      length (List.filter is_create (trace initializeClient (final close st))) = 1).
Proof.
  destruct st as [[cfg cl] w].
  unfold outcome, final, trace, close, bind, this_client, set_client, emit, ret,
    reaches_create. simpl.
  assert (Hinit : forall w0,
            match createSigner (privateKey cfg),
                  getEncryptionKeyFromHex (encryptionKey cfg) with
            | inr _, inr _ => true
            | _, _ => false
            end = true ->
            length (List.filter is_create
                      (snd (initializeClient ({| config := cfg; client := None |}, w0))))
            = 1).
  { intros w0.
    unfold initializeClient, bind, this_client, try_catch, this_config, lift,
      call, set_client, emit, throw. simpl.
    destruct (createSigner (privateKey cfg)) as [e0|signer]; simpl; [discriminate|].
    destruct (getEncryptionKeyFromHex (encryptionKey cfg)) as [e0|kb]; simpl;
      [discriminate|].
    destruct (Client_create _ _ w0) as [[e0|c] w1]; reflexivity. }
  destruct cl as [c|]; simpl; repeat split; apply Hinit.
Qed.

(** **** What keeps the service *)

Lemma keeps_ret {A} (a : A) : keeps_service (ret a).
Proof. intros st. split; [reflexivity|]. intros c Hc. split; [exact Hc | reflexivity]. Qed.

Lemma keeps_throw {A} e : keeps_service (throw (A := A) e).
Proof. intros st. split; [reflexivity|]. intros c Hc. split; [exact Hc | reflexivity]. Qed.

Lemma keeps_lift {A} (r : result A) : keeps_service (lift r).
Proof. intros st. split; [reflexivity|]. intros c Hc. split; [exact Hc | reflexivity]. Qed.

Lemma keeps_this_client : keeps_service this_client.
Proof. intros st. split; [reflexivity|]. intros c Hc. split; [exact Hc | reflexivity]. Qed.

Lemma keeps_this_config : keeps_service this_config.
Proof. intros st. split; [reflexivity|]. intros c Hc. split; [exact Hc | reflexivity]. Qed.

Lemma keeps_emit ev : is_create ev = false -> keeps_service (emit ev).
Proof.
  intros Hev st. split; [reflexivity|]. intros c Hc. split; [exact Hc|].
  unfold trace, emit. simpl. rewrite Hev. reflexivity.
Qed.

Lemma keeps_query {A} ev (op : World -> result A) :
  is_create ev = false -> keeps_service (query ev op).
Proof.
  intros Hev st. split; [reflexivity|]. intros c Hc. split; [exact Hc|].
  unfold trace, query. simpl. rewrite Hev. reflexivity.
Qed.

Lemma keeps_call {A} ev (op : World -> result A * World) :
  is_create ev = false -> keeps_service (call ev op).
Proof.
  intros Hev st. unfold final, trace, call.
  destruct (op (snd st)) as [r w]. simpl. split; [reflexivity|].
  intros c Hc. split; [exact Hc|]. rewrite Hev. reflexivity.
Qed.

Lemma keeps_bind {A B} (m : M A) (k : A -> M B) :
  keeps_service m -> (forall a, keeps_service (k a)) -> keeps_service (bind m k).
Proof.
  intros Hm Hk st. specialize (Hm st). unfold final, trace, bind in *.
  destruct (m st) as [[[e|a] st1] t1]; simpl in *; [exact Hm|].
  specialize (Hk a st1). unfold final, trace in Hk.
  destruct (k a st1) as [[r st2] t2]. simpl in *.
  destruct Hm as [Hcfg Hm], Hk as [Hcfg' Hk]. split; [congruence|].
  intros c Hc. destruct (Hm c Hc) as [Hc1 Ht1]. destruct (Hk c Hc1) as [Hc2 Ht2].
  split; [exact Hc2|]. rewrite List.filter_app, Ht1, Ht2. reflexivity.
Qed.

Lemma keeps_try_catch {A} (body : M A) (handler : js_exn -> M A) :
  keeps_service body -> (forall e, keeps_service (handler e)) ->
  keeps_service (try_catch body handler).
Proof.
  intros Hm Hk st. specialize (Hm st). unfold final, trace, try_catch in *.
  destruct (body st) as [[[e|a] st1] t1]; simpl in *; [|exact Hm].
  specialize (Hk e st1). unfold final, trace in Hk.
  destruct (handler e st1) as [[r st2] t2]. simpl in *.
  destruct Hm as [Hcfg Hm], Hk as [Hcfg' Hk]. split; [congruence|].
  intros c Hc. destruct (Hm c Hc) as [Hc1 Ht1]. destruct (Hk c Hc1) as [Hc2 Ht2].
  split; [exact Hc2|]. rewrite List.filter_app, Ht1, Ht2. reflexivity.
Qed.

Lemma keeps_initializeClient : keeps_service initializeClient.
Proof.
  intros st. split.
  - destruct st as [svc w].
    unfold final, initializeClient, bind, this_client, try_catch, this_config, lift,
      call, set_client, emit, throw. simpl.
    destruct (client svc); simpl; [reflexivity|].
    destruct (createSigner (privateKey (config svc))); simpl; [reflexivity|].
    destruct (getEncryptionKeyFromHex (encryptionKey (config svc))); simpl;
      [reflexivity|].
    destruct (Client_create _ _ w) as [[e0|c] w1]; reflexivity.
  - intros c Hc. unfold final, trace.
    rewrite (initializeClient_cached st c Hc). split; [exact Hc | reflexivity].
Qed.

Lemma keeps_require_client : keeps_service require_client.
Proof.
  unfold require_client. apply keeps_bind; [apply keeps_this_client|].
  intros [c|]; [apply keeps_ret | apply keeps_throw].
Qed.

Lemma keeps_scan_members c addr ms : keeps_service (scan_members c addr ms).
Proof.
  induction ms as [|m rest IH]; simpl; [apply keeps_ret|].
  apply keeps_bind; [apply keeps_query; reflexivity|].
  intros memberState. destruct (state_matches addr memberState); [apply keeps_ret | exact IH].
Qed.

Lemma keeps_scan_conversations c addr convs :
  keeps_service (scan_conversations c addr convs).
Proof.
  induction convs as [|conv rest IH]; simpl; [apply keeps_ret|].
  apply keeps_bind; [apply keeps_scan_members|].
  intros [inbox|]; [apply keeps_ret | exact IH].
Qed.

Lemma keeps_getInboxIdFromAddress addr : keeps_service (getInboxIdFromAddress addr).
Proof.
  unfold getInboxIdFromAddress. apply keeps_try_catch.
  - apply keeps_bind; [apply keeps_initializeClient|]. intros _.
    apply keeps_bind; [apply keeps_require_client|]. intros c.
    apply keeps_bind; [apply keeps_query; reflexivity|]. intros convs.
    apply keeps_scan_conversations.
  - intros e. apply keeps_bind; [apply keeps_emit; reflexivity|]. intros _.
    apply keeps_ret.
Qed.

Lemma keeps_create_conversation c addr : keeps_service (create_conversation c addr).
Proof.
  unfold create_conversation. apply keeps_bind; [apply keeps_this_config|]. intros cfg.
  apply keeps_bind; [apply keeps_query; reflexivity|]. intros canReceive.
  destruct (negb _); [apply keeps_throw|].
  apply keeps_try_catch; [apply keeps_call; reflexivity|].
  intros e. apply keeps_throw.
Qed.

Lemma keeps_sendMessage addr msg : keeps_service (sendMessage addr msg).
Proof.
  unfold sendMessage. apply keeps_try_catch.
  - unfold sendMessage_try.
    apply keeps_bind; [apply keeps_initializeClient|]. intros _.
    apply keeps_bind; [apply keeps_require_client|]. intros c.
    apply keeps_bind; [apply keeps_call; reflexivity|]. intros _.
    unfold relay. apply keeps_bind.
    + unfold lookup_conversation.
      apply keeps_bind; [apply keeps_getInboxIdFromAddress|].
      intros [inbox|]; [|apply keeps_ret].
      destruct (truthy_string inbox); [apply keeps_query; reflexivity | apply keeps_ret].
    + intros existing. apply keeps_bind.
      * destruct existing; [apply keeps_ret | apply keeps_create_conversation].
      * intros conv. unfold deliver.
        apply keeps_bind; [apply keeps_call; reflexivity|]. intros sent.
        apply keeps_bind; [apply keeps_emit; reflexivity|]. intros _. apply keeps_ret.
  - intros e. unfold sendMessage_catch.
    apply keeps_bind; [apply keeps_emit; reflexivity|]. intros _. apply keeps_ret.
Qed.


(** X8. [sendMessage] never changes the configuration of the service, and
    when a client is cached it keeps that client and never calls
    [Client.create]. *)
Theorem sendMessage_keeps_the_client addr msg st :
  config (fst (final (sendMessage addr msg) st)) = config (fst st)
  /\ forall c, client (fst st) = Some c ->
       client (fst (final (sendMessage addr msg) st)) = Some c
       /\ List.filter is_create (trace (sendMessage addr msg) st) = [].
Proof. exact (keeps_sendMessage addr msg st). Qed.

Lemma sendMessage_coherent addr msg st :
  exists r, sendMessage addr msg st = (inr r, final (sendMessage addr msg) st,
                                       trace (sendMessage addr msg) st)
            /\ coherent r.
Proof.
  pose proof (sendMessage_returns addr msg st) as Hout.
  destruct (outcome (sendMessage_try addr msg) st) as [e|r] eqn:Htry.
  - exists (failure (errorMessage_of e)). split.
    + rewrite (run_eta (sendMessage addr msg) st), Hout. reflexivity.
    + right. simpl. eauto.
  - destruct (sendMessage_try_success addr msg st r Htry) as (sent & ->).
    exists (delivered sent). split.
    + rewrite (run_eta (sendMessage addr msg) st), Hout. reflexivity.
    + left. simpl. eauto.
Qed.


End ServiceMore.

Section ServiceCapability.
Context {viem : Viem} {u8 : Uint8arrays} {xmtp : Xmtp}.

Implicit Types (st : XMTPService * World) (t : list event) (e : js_exn).

Lemma all_false_lookup addrs k :
  all_false addrs !! k
  = if existsb (String.eqb k) (map toLowerCase addrs) then Some false else None.
Proof.
  unfold all_false. induction addrs as [|a addrs IH]; [apply lookup_empty|].
  simpl. destruct (String.eqb_spec k (toLowerCase a)) as [->|Hne]; simpl.
  - apply lookup_insert_eq.
  - rewrite lookup_insert_ne by congruence. exact IH.
Qed.

Lemma canMessage_run a st :
  let ids := map identifier_of_address (addressArray a) in
  let network := environment (config (fst st)) in
  canMessage a st
  = match Client_canMessage ids network (snd st) with
    | inr canMessageMap =>
        (inr match a with
             | One addr => Flag (truthy_opt_bool (canMessageMap !! toLowerCase addr))
             | Many _ => Table canMessageMap
             end, st, [CallCanMessage ids network])
    | inl error =>
        (inr match a with
             | One _ => Flag false
             | Many addrs => Table (all_false addrs)
             end, st,
         [CallCanMessage ids network;
          Console (Err ["Error checking addresses:"; to_String error])])
    end.
Proof.
  unfold canMessage, try_catch, bind, this_config, query, emit, ret. simpl.
  destruct (Client_canMessage _ _ (snd st)) as [e|m]; destruct a; reflexivity.
Qed.

(** X10. The [canMessage] method never throws, works without a client and
    changes nothing: its one call is the capability check on the lower-cased
    addresses. For one address it returns a boolean, true exactly when the
    answer holds [true] for the lower-cased address. When the check throws,
    it returns [false] for one address and, for an array, a map that gives
    [false] to each lower-cased address and holds nothing else. *)
Theorem canMessage_never_throws a st :
  exists r, outcome (canMessage a) st = inr r
    /\ final (canMessage a) st = st
    /\ List.filter (fun ev => negb (is_canMessage ev)) (trace (canMessage a) st)
       = match Client_canMessage (map identifier_of_address (addressArray a))
                 (environment (config (fst st))) (snd st) with
         | inr _ => []
         | inl error => [Console (Err ["Error checking addresses:"; to_String error])]
         end
    /\ match a with
       | One addr => r = Flag (can_receive_now st addr)
       | Many addrs =>
           match Client_canMessage (map identifier_of_address addrs)
                   (environment (config (fst st))) (snd st) with
           | inr canMessageMap => r = Table canMessageMap
           | inl _ =>
               exists m, r = Table m
                 /\ (forall addr, In addr addrs -> m !! toLowerCase addr = Some false)
                 /\ (forall k v, m !! k = Some v ->
                                 v = false /\ In k (map toLowerCase addrs))
           end
       end.
Proof.
  pose proof (canMessage_run a st) as Hrun. cbv zeta in Hrun.
  unfold outcome, final, trace, can_receive_now. rewrite Hrun. clear Hrun.
  destruct a as [addr|addrs]; simpl;
    destruct (Client_canMessage _ _ (snd st)) as [e|m]; simpl;
    eexists; repeat split; try reflexivity.
  eexists. split; [reflexivity|]. split.
  - intros addr Hin. rewrite all_false_lookup.
    assert (H : existsb (String.eqb (toLowerCase addr)) (map toLowerCase addrs) = true)
      by (apply mentions_iff, in_map, Hin).
    rewrite H. reflexivity.
  - intros k v. rewrite all_false_lookup.
    destruct (existsb _ _) eqn:Hex; [|discriminate].
    intros [= <-]. split; [reflexivity | apply mentions_iff, Hex].
Qed.

Lemma close_run st :
  close st
  = (inr tt, ({| config := config (fst st); client := None |}, snd st),
     match client (fst st) with
     | Some _ => [Console (Log ["✓ XMTP connection closed"])]
     | None => []
     end).
Proof.
  destruct st as [[cfg cl] w].
  unfold close, bind, this_client, set_client, emit, ret. simpl.
  destruct cl; reflexivity.
Qed.

Lemma is_network_send_split (t : list event) :
  List.filter is_create t = [] -> List.filter is_sync t = [] ->
  List.filter is_newDm t = [] -> List.filter is_send t = [] ->
  List.filter is_network_send t = [].
Proof.
  induction t as [|ev t IH]; [reflexivity|]. simpl. unfold is_network_send at 1.
  destruct (is_create ev), (is_sync ev), (is_newDm ev), (is_send ev); simpl;
    try discriminate. exact IH.
Qed.

Lemma sendXMTPMessage_on_run addr msg st :
  outcome (sendXMTPMessage_on addr msg) st
  = inr (can_receive_now st addr && sends_now st addr msg)
  /\ client (fst (final (sendXMTPMessage_on addr msg) st)) = None
  /\ config (fst (final (sendXMTPMessage_on addr msg) st)) = config (fst st)
  /\ (can_receive_now st addr = false ->
      List.filter is_network_send (trace (sendXMTPMessage_on addr msg) st) = []).
Proof.
  pose proof (canMessage_run (One addr) st) as Hcan. cbv zeta in Hcan. simpl in Hcan.
  destruct (sendMessage_coherent addr msg st) as (r & Hsend & _).
  pose proof (proj1 (keeps_sendMessage addr msg st)) as Hcfg.
  unfold outcome, final, trace, can_receive_now, sends_now, sendXMTPMessage_on,
    try_finally, try_catch, bind.
  unfold outcome. rewrite Hcan, Hsend. clear Hcan.
  destruct (Client_canMessage _ _ (snd st)) as [e|m]; simpl.
  - rewrite close_run. simpl. repeat split.
    intros _. destruct (client (fst st)); reflexivity.
  - destruct (truthy_opt_bool (m !! toLowerCase addr)) eqn:Hm; simpl.
    + rewrite Hsend. simpl. destruct (success r); simpl; rewrite close_run; simpl;
        repeat split; try exact Hcfg; discriminate.
    + rewrite close_run. simpl. repeat split.
      intros _. destruct (client (fst st)); reflexivity.
Qed.

(** X11. [sendXMTPMessage], once it has its service, never throws and always
    ends with the client closed and the configuration unchanged. It returns
    [true] exactly when the capability check answers [true] for the address
    and [sendMessage] then reports a success. When the check answers
    otherwise or throws, nothing is sent: no client is created, nothing is
    synchronised, no conversation is created, no message goes out. *)
Theorem sendXMTPMessage_on_outcome addr msg st :
  outcome (sendXMTPMessage_on addr msg) st
  = inr (can_receive_now st addr && sends_now st addr msg)
  /\ client (fst (final (sendXMTPMessage_on addr msg) st)) = None
  /\ config (fst (final (sendXMTPMessage_on addr msg) st)) = config (fst st)
  /\ (can_receive_now st addr = false ->
      List.filter is_network_send (trace (sendXMTPMessage_on addr msg) st) = []).
Proof. exact (sendXMTPMessage_on_run addr msg st). Qed.

(** X12. [sendXMTPMessage] ends the process with status 1, before anything
    is sent, when a required key is missing from the environment and the
    file; otherwise it returns a boolean and leaves its service closed. *)
Theorem sendXMTPMessage_completes addr msg env file w :
  (Env.still_missing required_keys env file <> [] ->
   snd (sendXMTPMessage addr msg env file w) = Env.Exits 1)
  /\ (Env.still_missing required_keys env file = [] ->
      exists b st' t,
        snd (sendXMTPMessage addr msg env file w) = Env.Returns (inr b, st', t)
        /\ client (fst st') = None).
Proof.
  unfold sendXMTPMessage, createXMTPService. split.
  - intros Hne. pose proof (new_XMTPService_exits no_config env file Hne) as Hex.
    destruct (new_XMTPService no_config env file) as [[out env1] c].
    simpl in Hex. subst c. reflexivity.
  - intros Hnil.
    destruct (new_XMTPService_returns no_config env file Hnil) as (svc & Hret & _).
    destruct (new_XMTPService no_config env file) as [[out env1] c].
    simpl in Hret. subst c. simpl.
    destruct (sendXMTPMessage_on_run addr msg (svc, w)) as (Hout & Hcl & _).
    rewrite (run_eta (sendXMTPMessage_on addr msg) (svc, w)), Hout.
    eexists _, _, _. split; [reflexivity | exact Hcl].
Qed.

End ServiceCapability.

(** ** The resolution of an address *)

Section ResolutionProperties.
Context {viem : Viem} {u8 : Uint8arrays} {xmtp : Xmtp}.

Implicit Types (st : XMTPService * World) (t : list event) (e : js_exn).

Lemma state_matches_lower a b memberState :
  toLowerCase a = toLowerCase b ->
  state_matches a memberState = state_matches b memberState.
Proof.
  intros H. unfold state_matches, matches_address. rewrite H. reflexivity.
Qed.

Lemma scan_members_lower c a b ms st :
  toLowerCase a = toLowerCase b -> scan_members c a ms st = scan_members c b ms st.
Proof.
  intros H. induction ms as [|m rest IH]; [reflexivity|].
  simpl. unfold bind. destruct (query _ _ st) as [[[e|memberState] st1] t1]; [reflexivity|].
  rewrite (state_matches_lower a b memberState H).
  destruct (state_matches b memberState); [reflexivity|].
  assert (Hrest : scan_members c a rest st1 = scan_members c b rest st1).
  { clear IH. revert st1. induction rest as [|m' rest' IH']; intros st1; [reflexivity|].
    simpl. unfold bind.
    destruct (query _ _ st1) as [[[e|ms'] st2] t2]; [reflexivity|].
    rewrite (state_matches_lower a b ms' H).
    destruct (state_matches b ms'); [reflexivity|]. rewrite IH'. reflexivity. }
  rewrite Hrest. reflexivity.
Qed.

Lemma scan_conversations_lower c a b convs st :
  toLowerCase a = toLowerCase b ->
  scan_conversations c a convs st = scan_conversations c b convs st.
Proof.
  intros H. revert st. induction convs as [|conv rest IH]; intros st; [reflexivity|].
  simpl. unfold bind. rewrite (scan_members_lower c a b (members conv) st H).
  destruct (scan_members c b (members conv) st) as [[[e|[inbox|]] st1] t1];
    try reflexivity.
  rewrite IH. reflexivity.
Qed.

(** X13. [getInboxIdFromAddress] reads the address letter case apart: two
    addresses with the same lower-case form get the same answer, from the
    same calls, and leave the same state. *)
Theorem getInboxIdFromAddress_ignores_case a b st :
  toLowerCase a = toLowerCase b ->
  outcome (getInboxIdFromAddress a) st = outcome (getInboxIdFromAddress b) st
  /\ final (getInboxIdFromAddress a) st = final (getInboxIdFromAddress b) st
  /\ List.filter is_scan_call (trace (getInboxIdFromAddress a) st)
     = List.filter is_scan_call (trace (getInboxIdFromAddress b) st).
Proof.
  intros H.
  assert (Hbody :
    (initializeClient ;;;
     c <- require_client ;;
     conversations <- query CallList (conversations_list c) ;;
     scan_conversations c a conversations) st
    = (initializeClient ;;;
       c <- require_client ;;
       conversations <- query CallList (conversations_list c) ;;
       scan_conversations c b conversations) st).
  { unfold bind. destruct (initializeClient st) as [[[e|[]] st1] t1]; [reflexivity|].
    destruct (require_client st1) as [[[e|c] st2] t2]; [reflexivity|].
    destruct (query CallList (conversations_list c) st2) as [[[e|convs] st3] t3];
      [reflexivity|].
    rewrite (scan_conversations_lower c a b convs st3 H). reflexivity. }
  unfold outcome, final, trace, getInboxIdFromAddress, try_catch.
  rewrite Hbody.
  match goal with
  | |- context [match ?body st with _ => _ end] =>
      destruct (body st) as [[[e|found] st1] t1]
  end; simpl; repeat split.
  rewrite !List.filter_app. reflexivity.
Qed.

(** X14. With a client and inbox states that can all be read,
    [getInboxIdFromAddress] returns [null] exactly when no member of any
    listed conversation carries the address; otherwise it returns the inbox
    of a member that carries it. *)
Theorem getInboxIdFromAddress_finds_exactly addr st c convs :
  client (fst st) = Some c ->
  conversations_list c (snd st) = inr convs ->
  (forall conv m, In conv convs -> In m (members conv) -> member_readable c (snd st) m) ->
  exists found,
    outcome (getInboxIdFromAddress addr) st = inr found
    /\ (found = None <->
        forall conv m, In conv convs -> In m (members conv) ->
                       ~ carries_address c (snd st) addr m)
    /\ (forall inbox, found = Some inbox ->
        exists conv m, In conv convs /\ In m (members conv)
                       /\ carries_address c (snd st) addr m /\ inboxId m = inbox).
Proof.
  intros Hc Hlist Hread.
  destruct (getInboxIdFromAddress_cached addr st c Hc) as (t & Hrun & _).
  unfold outcome. rewrite Hrun. simpl. eexists. split; [reflexivity|].
  unfold resolution. rewrite Hlist, (scan_conversations_find c addr convs st Hread).
  destruct (List.find (member_matches c (snd st) addr) (flat_map members convs))
    as [m|] eqn:Hfind; simpl.
  - apply find_some in Hfind as [Hin Hmatch].
    apply in_flat_map in Hin as (conv & Hconv & Hm).
    apply member_matches_iff in Hmatch. split.
    + split; [discriminate|]. intros Hnone. destruct (Hnone conv m Hconv Hm Hmatch).
    + intros inbox [= <-]. exists conv, m. auto.
  - split; [|discriminate]. split; [|reflexivity].
    intros _ conv m Hconv Hm Hcarries. apply member_matches_iff in Hcarries.
    rewrite (find_none _ _ Hfind m) in Hcarries; [discriminate|].
    apply in_flat_map. exists conv. split; assumption.
Qed.

End ResolutionProperties.

(** ** The bus listener *)

Section ListenerMore.
Context {json : Json} {redis : Redis}.

Implicit Types (st : EthereumRedisListener * RWorld) (t : list levent) (e : js_exn).

(** **** The handlers *)

Lemma filter_prints (lines : list console) :
  List.filter is_redis_call (map Print lines) = [].
Proof. induction lines as [|l ls IH]; [reflexivity | exact IH]. Qed.

Lemma react_run s st :
  exists t, react s st
            = (inr tt, (with_link (fst st) (link_after [s] (isConnected (fst st))), snd st), t)
            /\ List.filter is_redis_call t = [].
Proof.
  destruct st as [[sub flag] w]. destruct s as [|err|message chan].
  - eexists. split; reflexivity.
  - eexists. split; reflexivity.
  - exists (map Print (handleMessage (now w) message chan)).
    split; [reflexivity | apply filter_prints].
Qed.

Lemma dispatch_run signals st :
  exists t, dispatch signals st
            = (inr tt, (with_link (fst st) (link_after signals (isConnected (fst st))),
                        snd st), t)
            /\ List.filter is_redis_call t = [].
Proof.
  revert st. induction signals as [|s rest IH]; intros st.
  - destruct st as [[sub flag] w]. exists []. split; reflexivity.
  - destruct (react_run s st) as (t1 & Hr & Ht1). simpl. unfold lbind. rewrite Hr.
    destruct (IH (with_link (fst st) (link_after [s] (isConnected (fst st))), snd st))
      as (t2 & Hd & Ht2).
    rewrite Hd. simpl. eexists. split; [reflexivity|].
    rewrite List.filter_app, Ht1, Ht2. reflexivity.
Qed.

Lemma link_after_messages signals b :
  only_messages signals = true -> link_after signals b = b.
Proof.
  revert b. induction signals as [|s rest IH]; intros b H; [reflexivity|].
  simpl in H. apply andb_true_iff in H as [Hs Hrest].
  destruct s; try discriminate. simpl. apply IH. exact Hrest.
Qed.

Lemma link_after_app s1 s2 b : link_after (s1 ++ s2) b = link_after s2 (link_after s1 b).
Proof. unfold link_after. apply fold_left_app. Qed.

(** X16. The handlers the listener registers never throw, never call redis
    and never touch the subscriber or the world. After any signals the
    connection flag is that of the last [connect] or [error] event: true
    after [connect], false after [error]; messages leave it as it was. *)
Theorem dispatch_tracks_the_link signals st :
  loutcome (dispatch signals) st = inr tt
  /\ subscriber (fst (lfinal (dispatch signals) st)) = subscriber (fst st)
  /\ snd (lfinal (dispatch signals) st) = snd st
  /\ List.filter is_redis_call (ltrace (dispatch signals) st) = []
  /\ (only_messages signals = true ->
      isConnected (fst (lfinal (dispatch signals) st)) = isConnected (fst st))
  /\ (forall before after, signals = before ++ Connected :: after ->
      only_messages after = true ->
      isConnected (fst (lfinal (dispatch signals) st)) = true)
  /\ (forall before err after, signals = before ++ Failed err :: after ->
      only_messages after = true ->
      isConnected (fst (lfinal (dispatch signals) st)) = false).
Proof.
  destruct (dispatch_run signals st) as (t & Hrun & Ht).
  unfold loutcome, lfinal, ltrace. rewrite Hrun. simpl.
  repeat split; try assumption.
  - apply link_after_messages.
  - intros before after -> Hafter. rewrite link_after_app. simpl.
    apply (link_after_messages after true Hafter).
  - intros before err after -> Hafter. rewrite link_after_app. simpl.
    apply (link_after_messages after false Hafter).
Qed.

Lemma await_run {A} ev (op : RWorld -> result A * RWorld * list signal) st :
  exists t, await ev op st
            = (fst (fst (op (snd st))),
               (with_link (fst st) (link_after (snd (op (snd st))) (isConnected (fst st))),
                snd (fst (op (snd st)))),
               ev :: t)
            /\ List.filter is_redis_call t = [].
Proof.
  unfold await. destruct (op (snd st)) as [[r w] signals]. simpl.
  destruct (dispatch_run signals (fst st, w)) as (t & Hd & Ht).
  rewrite Hd. simpl. exists t. split; [reflexivity | exact Ht].
Qed.

(** **** [disconnect] *)

Lemma last_after_two {A} (a b x : A) (l1 l2 : list A) :
  last (a :: l1 ++ b :: l2 ++ [x]) = Some x.
Proof.
  replace (a :: l1 ++ b :: l2 ++ [x]) with ((a :: l1 ++ b :: l2) ++ [x])
    by (simpl; rewrite <- app_assoc; reflexivity).
  apply last_snoc.
Qed.

Lemma disconnect_idle st :
  subscriber (fst st) = None -> disconnect st = (inr tt, st, []).
Proof.
  intros H. unfold disconnect, ltry_catch, lbind, this_subscriber. simpl.
  rewrite H. reflexivity.
Qed.

Lemma disconnect_run st c :
  subscriber (fst st) = Some c ->
  exists t,
    disconnect st
    = (inr tt,
       (with_link (fst st)
          (link_after (disconnect_signals c (snd st)) (isConnected (fst st))),
        match client_unsubscribe c ETHEREUM_CHANNEL (snd st) with
        | (inl _, w1, _) => w1
        | (inr _, w1, _) => snd (fst (client_quit c w1))
        end),
       t)
    /\ match client_unsubscribe c ETHEREUM_CHANNEL (snd st) with
       | (inl e, _, _) =>
           List.filter is_quit t = []
           /\ last t = Some (Print (Err ["❌ Disconnection error:"; message_in_template e]))
       | (inr _, w1, _) =>
           List.filter is_quit t = [RedisQuit]
           /\ last t
              = Some (Print match fst (fst (client_quit c w1)) with
                            | inl e => Err ["❌ Disconnection error:"; message_in_template e]
                            | inr _ => Log ["✅ Disconnected from Redis"]
                            end)
       end.
Proof.
  intros Hs. destruct st as [[sub flag] w]. simpl in Hs. subst sub.
  unfold disconnect, disconnect_signals, ltry_catch, lbind, this_subscriber, await, lemit.
  simpl.
  destruct (client_unsubscribe c ETHEREUM_CHANNEL w) as [[r1 w1] s1]. simpl.
  destruct (dispatch_run s1 ({| subscriber := Some c; isConnected := flag |}, w1))
    as (t1 & Hd1 & Hf1). rewrite Hd1. simpl.
  assert (Hq : forall l : list levent,
             List.filter is_redis_call l = [] -> List.filter is_quit l = []).
  { intros l. induction l as [|ev l IH]; [reflexivity|]. simpl.
    destruct ev; simpl; try discriminate; exact IH. }
  destruct r1 as [e|[]]; simpl.
  - eexists. split; [reflexivity|]. split.
    + simpl. rewrite ?List.filter_app, (Hq t1 Hf1). reflexivity.
    + rewrite app_comm_cons. apply last_snoc.
  - destruct (client_quit c w1) as [[r2 w2] s2]. simpl.
    destruct (dispatch_run s2
                (with_link {| subscriber := Some c; isConnected := flag |}
                   (link_after s1 flag), w2)) as (t2 & Hd2 & Hf2).
    unfold with_link in *. cbn [subscriber isConnected fst snd] in *. rewrite Hd2. simpl.
    rewrite link_after_app. destruct r2 as [e|[]]; simpl.
    + eexists. split; [reflexivity|]. split.
      * simpl. rewrite ?List.filter_app. simpl. rewrite ?List.filter_app. simpl.
        rewrite (Hq t1 Hf1), (Hq t2 Hf2). reflexivity.
      * rewrite app_comm_cons. apply last_snoc.
    + eexists. split; [reflexivity|]. split.
      * simpl. rewrite ?List.filter_app. simpl. rewrite ?List.filter_app. simpl.
        rewrite (Hq t1 Hf1), (Hq t2 Hf2). reflexivity.
      * apply last_after_two.
Qed.

Lemma disconnect_returns st :
  loutcome disconnect st = inr tt
  /\ subscriber (fst (lfinal disconnect st)) = subscriber (fst st).
Proof.
  unfold loutcome, lfinal. destruct (subscriber (fst st)) as [c|] eqn:Hs.
  - destruct (disconnect_run st c Hs) as (t & Hrun & _). rewrite Hrun. simpl.
    split; [reflexivity | exact Hs].
  - rewrite (disconnect_idle st Hs). simpl. split; [reflexivity | exact Hs].
Qed.

(** X17. [disconnect] never throws and never forgets the subscriber. On a
    listener that never connected it does nothing at all. It does not mark
    the listener as disconnected: the connection flag changes only through
    the events the client emits meanwhile. When [unsubscribe] throws, [quit]
    is not called and the error is the last line printed. *)
Theorem disconnect_never_throws st :
  loutcome disconnect st = inr tt
  /\ subscriber (fst (lfinal disconnect st)) = subscriber (fst st)
  /\ match subscriber (fst st) with
     | None => disconnect st = (inr tt, st, [])
     | Some c =>
         isConnected (fst (lfinal disconnect st))
         = link_after (disconnect_signals c (snd st)) (isConnected (fst st))
         /\ forall e, fst (fst (client_unsubscribe c ETHEREUM_CHANNEL (snd st))) = inl e ->
              List.filter is_quit (ltrace disconnect st) = []
              /\ last (ltrace disconnect st)
                 = Some (Print (Err ["❌ Disconnection error:"; message_in_template e]))
     end.
Proof.
  destruct (disconnect_returns st) as [Hout Hsub].
  split; [exact Hout|]. split; [exact Hsub|].
  destruct (subscriber (fst st)) as [c|] eqn:Hs; [|apply disconnect_idle; exact Hs].
  destruct (disconnect_run st c Hs) as (t & Hrun & Ht).
  unfold lfinal, ltrace. rewrite Hrun. simpl. split; [reflexivity|].
  intros e He. destruct (client_unsubscribe c ETHEREUM_CHANNEL (snd st)) as [[r1 w1] s1].
  simpl in He. subst r1. exact Ht.
Qed.

(** X18. The handlers of [SIGINT] and [SIGTERM] always end the process with
    status 0, also when the disconnection fails; the handler of [SIGINT]
    prints its farewell last. *)
Theorem signals_exit_with_zero st :
  fst (fst (on_SIGINT st)) = ExitsWith 0
  /\ fst (fst (on_SIGTERM st)) = ExitsWith 0
  /\ last (snd (on_SIGINT st)) = Some (Print (Log ["👋 Goodbye!"])).
Proof.
  destruct (disconnect_returns st) as [Hout _].
  unfold on_SIGINT, on_SIGTERM, then_exit, lbind, lemit, loutcome in *. simpl.
  destruct (disconnect st) as [[r st1] t]. simpl in Hout. subst r. simpl.
  repeat split. rewrite app_comm_cons. apply last_snoc.
Qed.

(** **** [connect], [subscribe], [main] *)

Lemma no_subscribe_call (l : list levent) :
  List.filter is_redis_call l = [] -> List.filter is_subscribe l = [].
Proof.
  induction l as [|ev l IH]; [reflexivity|]. simpl.
  destruct ev; simpl; try discriminate; exact IH.
Qed.

Lemma connect_run st :
  exists t,
    connect st
    = match createClient REDIS_URL (snd st) with
      | (inl e, w1) => (inl e, (fst st, w1), t)
      | (inr c, w1) =>
          (fst (fst (client_connect c w1)),
           ({| subscriber := Some c;
               isConnected := link_after (snd (client_connect c w1)) (isConnected (fst st)) |},
            snd (fst (client_connect c w1))),
           t)
      end
    /\ List.filter is_subscribe t = []
    /\ forall e, loutcome connect st = inl e ->
         last t = Some (Print (Err ["💥 Connection error:"; message_in_template e])).
Proof.
  destruct st as [[sub flag] w].
  unfold loutcome, connect, ltry_catch, lbind, lcall, lemit, lthrow, set_subscriber, await.
  simpl. destruct (createClient REDIS_URL w) as [[e|c] w1]; simpl.
  - eexists. split; [reflexivity|]. split; [reflexivity|].
    intros e' [= <-]. reflexivity.
  - destruct (client_connect c w1) as [[r w2] sigs]. simpl.
    destruct (dispatch_run sigs ({| subscriber := Some c; isConnected := flag |}, w2))
      as (t1 & Hd & Hf).
    unfold with_link in Hd. cbn [subscriber isConnected fst snd] in Hd. rewrite Hd.
    pose proof (no_subscribe_call t1 Hf) as Hns.
    destruct r as [e|[]]; simpl.
    + eexists. split; [reflexivity|]. split.
      * rewrite ?List.filter_app. simpl. rewrite ?List.filter_app, Hns. reflexivity.
      * intros e' [= <-].
        change (last ((Print (Log ["🔄 Connecting to Redis..."])
                       :: RedisCreate REDIS_URL :: RedisOn "connect" :: RedisOn "error"
                       :: RedisConnect :: t1)
                      ++ [Print (Err ["💥 Connection error:"; message_in_template e])])
                = Some (Print (Err ["💥 Connection error:"; message_in_template e]))).
        apply last_snoc.
    + eexists. split; [reflexivity|]. split; [exact Hns | discriminate].
Qed.

(** X19. [connect] throws exactly what [createClient] or the [connect] of the
    client threw, after printing its message as the last line, and returns
    when both succeed. The subscriber is set as soon as the client exists,
    also when connecting then fails; it is left alone when [createClient]
    throws. [connect] subscribes to nothing. *)
Theorem connect_rethrows st :
  match createClient REDIS_URL (snd st) with
  | (inl e, _) =>
      loutcome connect st = inl e /\ fst (lfinal connect st) = fst st
  | (inr c, w1) =>
      loutcome connect st = fst (fst (client_connect c w1))
      /\ subscriber (fst (lfinal connect st)) = Some c
  end
  /\ List.filter is_subscribe (ltrace connect st) = []
  /\ forall e, loutcome connect st = inl e ->
       last (ltrace connect st)
       = Some (Print (Err ["💥 Connection error:"; message_in_template e])).
Proof.
  destruct (connect_run st) as (t & Hrun & Hns & Hlast).
  unfold loutcome, lfinal, ltrace in *. rewrite Hrun in *.
  destruct (createClient REDIS_URL (snd st)) as [[e|c] w1]; simpl in *;
    repeat split; assumption.
Qed.

Lemma subscribe_run st :
  exists t,
    subscribe st
    = match subscriber (fst st) with
      | None => (inl null_subscriber, st, t)
      | Some c =>
          (fst (fst (client_subscribe c ETHEREUM_CHANNEL (snd st))),
           (with_link (fst st)
              (link_after (snd (client_subscribe c ETHEREUM_CHANNEL (snd st)))
                 (isConnected (fst st))),
            snd (fst (client_subscribe c ETHEREUM_CHANNEL (snd st)))),
           t)
      end
    /\ List.filter is_redis_call t
       = match subscriber (fst st) with
         | None => []
         | Some _ => [RedisSubscribe ETHEREUM_CHANNEL]
         end
    /\ forall e, loutcome subscribe st = inl e ->
         last t = Some (Print (Err ["💥 Subscription error:"; message_in_template e])).
Proof.
  destruct st as [[sub flag] w].
  unfold loutcome, subscribe, ltry_catch, lbind, lemit, lthrow, this_subscriber, await.
  simpl. destruct sub as [c|]; simpl.
  - destruct (client_subscribe c ETHEREUM_CHANNEL w) as [[r w1] sigs]. simpl.
    destruct (dispatch_run sigs ({| subscriber := Some c; isConnected := flag |}, w1))
      as (t1 & Hd & Hf).
    rewrite Hd. destruct r as [e|[]]; simpl.
    + eexists. split; [reflexivity|]. split.
      * rewrite ?List.filter_app. simpl. rewrite ?List.filter_app, Hf. reflexivity.
      * intros e' [= <-]. rewrite !app_comm_cons. apply last_snoc.
    + eexists. split; [reflexivity|]. split; [|discriminate].
      rewrite ?List.filter_app. simpl. rewrite ?List.filter_app, Hf. reflexivity.
  - eexists. split; [reflexivity|]. split; [reflexivity|].
    intros e' [= <-]. reflexivity.
Qed.

(** X20. [subscribe] on a listener that has no subscriber (before [connect],
    or after a [createClient] that threw) throws a [TypeError] without any
    call of redis. With a subscriber it makes one call, the subscription to
    [ethereum-messages], and returns or throws what that call does, keeping
    the subscriber. What it throws it prints last. *)
Theorem subscribe_needs_a_subscriber st :
  match subscriber (fst st) with
  | None =>
      loutcome subscribe st = inl null_subscriber
      /\ lfinal subscribe st = st
      /\ List.filter is_redis_call (ltrace subscribe st) = []
  | Some c =>
      loutcome subscribe st = fst (fst (client_subscribe c ETHEREUM_CHANNEL (snd st)))
      /\ subscriber (fst (lfinal subscribe st)) = Some c
      /\ List.filter is_redis_call (ltrace subscribe st) = [RedisSubscribe ETHEREUM_CHANNEL]
  end
  /\ forall e, loutcome subscribe st = inl e ->
       last (ltrace subscribe st)
       = Some (Print (Err ["💥 Subscription error:"; message_in_template e])).
Proof.
  destruct (subscribe_run st) as (t & Hrun & Hcalls & Hlast).
  unfold loutcome, lfinal, ltrace in *. rewrite Hrun in *.
  destruct (subscriber (fst st)) as [c|] eqn:Hs; simpl in *;
    repeat split; assumption.
Qed.

Lemma lrun_eta {A} (m : LM A) st : m st = (loutcome m st, lfinal m st, ltrace m st).
Proof. unfold loutcome, lfinal, ltrace. destruct (m st) as [[r s] t]. reflexivity. Qed.

Lemma connect_sets_subscriber st :
  loutcome connect st = inr tt ->
  exists c, subscriber (fst (lfinal connect st)) = Some c.
Proof.
  destruct (connect_run st) as (t & Hrun & _).
  unfold loutcome, lfinal. rewrite Hrun.
  destruct (createClient REDIS_URL (snd st)) as [[e|c] w1]; simpl; [discriminate|].
  intros _. exists c. reflexivity.
Qed.

Lemma subscribe_keeps_subscriber st c :
  subscriber (fst st) = Some c -> subscriber (fst (lfinal subscribe st)) = Some c.
Proof.
  intros Hs. destruct (subscribe_run st) as (t & Hrun & _).
  unfold lfinal. rewrite Hrun, Hs. simpl. exact Hs.
Qed.

(** X21. [main] ends the process with status 1 exactly when [connect] or
    [subscribe] throws, after printing the message of the error as its last
    line; when [connect] throws, nothing is subscribed. Otherwise the process
    stays alive with a subscriber, and the last thing [main] does is to keep
    the standard input open. *)
Theorem main_ends w :
  match loutcome connect (new_listener, w) with
  | inl e =>
      fst (fst (main w)) = ExitsWith 1
      /\ List.filter is_subscribe (snd (main w)) = []
      /\ last (snd (main w))
         = Some (Print (Err ["💥 Startup error:"; message_in_template e]))
  | inr _ =>
      match loutcome subscribe (lfinal connect (new_listener, w)) with
      | inl e =>
          fst (fst (main w)) = ExitsWith 1
          /\ last (snd (main w))
             = Some (Print (Err ["💥 Startup error:"; message_in_template e]))
      | inr _ =>
          fst (fst (main w)) = StaysAlive
          /\ last (snd (main w)) = Some StdinResume
          /\ is_Some (subscriber (fst (snd (fst (main w)))))
      end
  end.
Proof.
  set (st0 := (new_listener, w)).
  pose proof (connect_run st0) as (tc & _ & Hns & _).
  pose proof (connect_sets_subscriber st0) as Hsub.
  unfold main, startup, lbind. fold st0.
  rewrite (lrun_eta connect st0).
  assert (Htc : List.filter is_subscribe (ltrace connect st0) = []).
  { destruct (connect_run st0) as (t & Hrun & Hn & _). unfold ltrace. rewrite Hrun.
    destruct (createClient REDIS_URL (snd st0)) as [[e|c] w1]; exact Hn. }
  destruct (loutcome connect st0) as [e|[]] eqn:Hc.
  - simpl. repeat split.
    + rewrite ?List.filter_app, Htc. reflexivity.
    + rewrite ?last_cons, ?last_app. reflexivity.
  - destruct (Hsub eq_refl) as (c & Hs).
    pose proof (subscribe_keeps_subscriber (lfinal connect st0) c Hs) as Hkeep.
    rewrite (lrun_eta subscribe (lfinal connect st0)).
    destruct (loutcome subscribe (lfinal connect st0)) as [e|[]] eqn:Hsb.
    + simpl. repeat split. rewrite ?last_cons, ?last_app. reflexivity.
    + simpl. repeat split.
      * unfold lemit. simpl. rewrite ?last_cons, ?last_app. reflexivity.
      * exists c. exact Hkeep.
Qed.

End ListenerMore.

(** ** Runs of the rest of the code *)

Section DotenvRuns.
Import Env.

(** X1 on a file that already defines the key. *)
Lemma parse_dotenv_last_line_wins_witness :
  parse_dotenv (add_line "XMTP_ENV=dev" (assignment "XMTP_ENV " " production=1 "))
  = <[ "XMTP_ENV" := "production=1" ]> (parse_dotenv "XMTP_ENV=dev").
Proof.
  exact (parse_dotenv_last_line_wins "XMTP_ENV=dev" "XMTP_ENV " " production=1 "
           ltac:(discriminate) eq_refl eq_refl eq_refl eq_refl).
Defined.

(** X2 on a comment at the end of a file. *)
Lemma parse_dotenv_ignores_line_witness :
  parse_dotenv (add_line "XMTP_ENV=dev" "# XMTP_ENV=production")
  = parse_dotenv "XMTP_ENV=dev".
Proof.
  exact (parse_dotenv_ignores_line "XMTP_ENV=dev" "# XMTP_ENV=production"
           eq_refl (or_introl eq_refl)).
Defined.

(** X3 on a key that the file defines and nobody requires. *)
Lemma validateEnvironment_keeps_values_witness :
  snd (fst (validateEnvironment ["XMTP_ENV"] ∅
              (Dotenv (add_line "XMTP_ENV=dev" "XMTP_DB_PATH=/tmp/db"))))
    !! "XMTP_DB_PATH"
  = (∅ : gmap string string) !! "XMTP_DB_PATH".
Proof.
  apply (validateEnvironment_keeps_values ["XMTP_ENV"] ∅
           (Dotenv (add_line "XMTP_ENV=dev" "XMTP_DB_PATH=/tmp/db")) "XMTP_DB_PATH").
  left. intros [H|[]]. discriminate H.
Defined.

End DotenvRuns.

Section ConstructorRuns.
Import Env.
#[local] Existing Instance Mock.friendly_net.

(** X4 with a complete argument and an empty environment. *)
Lemma new_XMTPService_exits_despite_config_witness :
  snd (new_XMTPService MockMore.full_config ∅ NoDotenv) = Exits 1.
Proof.
  apply (new_XMTPService_exits_despite_config MockMore.full_config ∅ NoDotenv).
  vm_compute. discriminate.
Defined.

(** X5 with the key in the environment and the rest in the file. *)
Lemma new_XMTPService_settings_witness :
  exists svc key enc net,
    snd (new_XMTPService no_config {[ "PRIVATE_KEY" := "ab12" ]}
           (Dotenv (add_line (add_line "XMTP_DB_ENCRYPTION_KEY=00ff" "XMTP_ENV=dev")
                             "XMTP_DB_PATH=/tmp/db")))
    = Returns svc
    /\ key = "ab12" /\ enc = "00ff" /\ net = "dev"
    /\ privateKey (config svc) = key
    /\ cfg_dbPath (config svc) = default_dbPath.
Proof.
  destruct (new_XMTPService_settings no_config {[ "PRIVATE_KEY" := "ab12" ]}
              (Dotenv (add_line (add_line "XMTP_DB_ENCRYPTION_KEY=00ff" "XMTP_ENV=dev")
                                "XMTP_DB_PATH=/tmp/db")))
    as (svc & key & enc & net & Hret & _ & Hk & He & Hn & Hpk & _ & _ & Hdb & _).
  { vm_compute. reflexivity. }
  exists svc, key, enc, net.
  vm_compute in Hk. vm_compute in He. vm_compute in Hn.
  injection Hk as <-. injection He as <-. injection Hn as <-.
  repeat split; try assumption.
Defined.

End ConstructorRuns.

Section ServiceRuns.
#[local] Existing Instances Mock.viem Mock.u8.
Import Mock.

(** X6 on a network whose [Client.create] throws. *)
Lemma initializeClient_failure_witness :
  client (fst (final (@initializeClient _ _ MockMore.create_fails_net)
                 (start MockMore.create_fails))) = None
  /\ length (List.filter is_create
               (trace (@initializeClient _ _ MockMore.create_fails_net)
                  (start MockMore.create_fails))) = 1.
Proof.
  destruct (@initializeClient_failure _ _ MockMore.create_fails_net
              (start MockMore.create_fails)
              (new_Error "Failed to initialize XMTP client: Error: database locked"))
    as (Hclient & _ & _ & Hcalls & _).
  { vm_compute. reflexivity. }
  split; [exact Hclient | exact Hcalls].
Defined.

(** X13 on the friendly network: the address in capitals and in small
    letters. *)
Lemma getInboxIdFromAddress_ignores_case_witness :
  outcome (@getInboxIdFromAddress _ _ friendly_net "0xABCDEF") (start friendly)
  = outcome (@getInboxIdFromAddress _ _ friendly_net "0xabcdef") (start friendly).
Proof.
  exact (proj1 (@getInboxIdFromAddress_ignores_case _ _ friendly_net
                  "0xABCDEF" "0xabcdef" (start friendly) eq_refl)).
Defined.

(** X14 on the friendly network, once the client is there. *)
Lemma getInboxIdFromAddress_finds_exactly_witness :
  exists found,
    outcome (@getInboxIdFromAddress _ _ friendly_net alice) MockMore.ready = inr found
    /\ found = Some "inbox-alice".
Proof.
  destruct (@getInboxIdFromAddress_finds_exactly _ _ friendly_net alice MockMore.ready tt
              [("group", [{| inboxId := "inbox-bob" |}; {| inboxId := "inbox-alice" |}])]
              eq_refl eq_refl) as (found & Hout & _).
  { intros cv mb [<-|[]] [<-|[<-|[]]]; eexists; reflexivity. }
  exists found. split; [exact Hout|].
  vm_compute in Hout. injection Hout as <-. reflexivity.
Defined.

End ServiceRuns.

Section ListenerRuns.
#[local] Existing Instance Mock.json.

(** [main] against a server that accepts the connection and publishes the
    payload of the README while the subscription is awaited. *)
Example main_listens :
  fst (fst (@main _ MockMore.redis_up 0)) = StaysAlive
  /\ isConnected (fst (snd (fst (@main _ MockMore.redis_up 0)))) = true
  /\ List.filter is_redis_call (snd (@main _ MockMore.redis_up 0))
     = [RedisCreate REDIS_URL; RedisConnect; RedisSubscribe ETHEREUM_CHANNEL]
  /\ length (snd (@main _ MockMore.redis_up 0)) = 20.
Proof. repeat split; vm_compute; reflexivity. Qed.

(** [main] against a server that refuses the connection. *)
Example main_gives_up :
  fst (fst (@main _ MockMore.redis_down 0)) = ExitsWith 1
  /\ isConnected (fst (snd (fst (@main _ MockMore.redis_down 0)))) = false
  /\ snd (@main _ MockMore.redis_down 0)
     = [ProcessOn "SIGINT"; ProcessOn "SIGTERM";
      Print (Log ["🔄 Connecting to Redis..."]);
      RedisCreate REDIS_URL; RedisOn "connect"; RedisOn "error"; RedisConnect;
      Print (Err ["❌ Redis error:"; "connect ECONNREFUSED"]);
      Print (Err ["💥 Connection error:"; "connect ECONNREFUSED"]);
      Print (Err ["💥 Startup error:"; "connect ECONNREFUSED"])].
Proof. repeat split; vm_compute; reflexivity. Qed.

End ListenerRuns.
